(** * Whitecarrot calendar viewer: filtering, export and fetch

    A shallow embedding of the event pipeline of the calendar viewer:
    - [src/lib/components/Calendar.svelte] (the script block): [filterEvents],
      [exportToCSV], [exportToPDF], the two reactive blocks and [loadEvents];
    - [src/lib/calendar.ts]: [getCalendarEvents];
    - [src/lib/stores/auth.ts]: the [accessToken] store.

    Conventions of the embedding.
    - A JavaScript string is a list of code units. Most of the development
      works on the code units U+0000..U+00FF ([JsString]), for which
      [toLowerCase] is a code-unit-wise map and [trim] removes the seven
      white-space and line-terminator code units of that range. The filter
      is also given over all 16-bit code units ([Wide]), with [trim] in full
      and the platform's [toLowerCase] as a parameter; the narrow filter is
      its restriction ([NarrowIsWide]).
    - A property that may be [undefined] or [null] is an [option]; the source
      only applies [?.], [||], [!] and [===] against a string to such values,
      and these do not tell [undefined] from [null].
    - [format] (date-fns), [Date.prototype.toISOString], the clock and the
      network are not code of the repository; they are parameters. *)

From Stdlib Require Import String Ascii List Bool Arith NArith ZArith Lia.
Import ListNotations.

Set Implicit Arguments.

(** ** JavaScript strings *)

Module JsString.

Definition str : Type := list ascii.

Definition lit (s : string) : str := list_ascii_of_string s.

Definition code (c : ascii) : nat := nat_of_ascii c.

Fixpoint strEq (a b : str) : bool :=
  match a, b with
  | [], [] => true
  | x :: a', y :: b' => Ascii.eqb x y && strEq a' b'
  | _, _ => false
  end.

(** WhiteSpace and LineTerminator code units below U+0100: TAB, LF, VT, FF,
    CR, SP and NBSP. *)
Definition isWhiteSpace (c : ascii) : bool :=
  let n := code c in
  ((9 <=? n) && (n <=? 13)) || (n =? 32) || (n =? 160).

(** [String.prototype.toLowerCase] on one code unit: A-Z, and the Latin-1
    capitals U+00C0..U+00DE without the multiplication sign U+00D7. *)
Definition lowerChar (c : ascii) : ascii :=
  let n := code c in
  if ((65 <=? n) && (n <=? 90))
     || ((192 <=? n) && (n <=? 222) && negb (n =? 215))
  then ascii_of_nat (n + 32) else c.

Definition toLowerCase (s : str) : str := map lowerChar s.

Fixpoint trimStart (s : str) : str :=
  match s with
  | c :: s' => if isWhiteSpace c then trimStart s' else s
  | [] => []
  end.

Definition trimEnd (s : str) : str := rev (trimStart (rev s)).

Definition trim (s : str) : str := trimEnd (trimStart s).

Fixpoint startsWith (s q : str) {struct q} : bool :=
  match q, s with
  | [], _ => true
  | y :: q', x :: s' => Ascii.eqb x y && startsWith s' q'
  | _ :: _, [] => false
  end.

(** [s.includes(q)]: [q] occurs in [s] at some position. *)
Fixpoint includes (s q : str) : bool :=
  startsWith s q ||
  match s with
  | [] => false
  | _ :: s' => includes s' q
  end.

(** [s.replace(/c/g, r)]: every occurrence of the code unit [c] becomes [r]. *)
Fixpoint replaceAll (c : ascii) (r : str) (s : str) : str :=
  match s with
  | [] => []
  | x :: s' => (if Ascii.eqb x c then r else [x]) ++ replaceAll c r s'
  end.

(** [parts.join(sep)]. *)
Fixpoint join (sep : str) (parts : list str) : str :=
  match parts with
  | [] => []
  | [p] => p
  | p :: rest => p ++ sep ++ join sep rest
  end.

(** Truthiness of a possibly absent string: absent and empty are falsy. *)
Definition truthyStr (o : option str) : bool :=
  match o with
  | Some (_ :: _) => true
  | _ => false
  end.

(** [o || dflt] where [o] is a possibly absent string. *)
Definition orElse (o : option str) (dflt : str) : str :=
  match o with
  | Some (c :: s) => c :: s
  | _ => dflt
  end.

(** [`${o}`], the text of a possibly absent ([null]) string in a template. *)
Definition templateText (o : option str) : str :=
  match o with
  | Some s => s
  | None => lit "null"
  end.

(** [o === t] where [t] is a string. *)
Definition strictEq (o : option str) (t : str) : bool :=
  match o with
  | Some s => strEq s t
  | None => false
  end.

End JsString.
Import JsString.

(** ** JavaScript values of the filter callback

    [event.summary?.toLowerCase().includes(q)] is [undefined] or a boolean. *)

Inductive jsval : Type :=
| JUndefined
| JBool (b : bool).

Definition truthy (v : jsval) : bool :=
  match v with
  | JUndefined => false
  | JBool b => b
  end.

Definition jsOr (a b : jsval) : jsval := if truthy a then a else b.
Definition jsAnd (a b : jsval) : jsval := if truthy a then b else a.

(** ** Events (the fields of [calendar_v3.Schema$Event] the component reads) *)

Record EventDateTime : Type := mkEventDateTime {
  dateTime : option str;
  date : option str
}.

Record Event : Type := mkEvent {
  summary : option str;
  description : option str;
  location : option str;
  eventType : option str;
  start : option EventDateTime;
  end_ : option EventDateTime
}.

(** ** filterEvents *)

(** [field?.toLowerCase().includes(searchQuery.toLowerCase())] *)
Definition fieldIncludes (field : option str) (searchQuery : str) : jsval :=
  match field with
  | None => JUndefined
  | Some s => JBool (includes (toLowerCase s) (toLowerCase searchQuery))
  end.

Definition matchesSearch (searchQuery : str) (event : Event) : jsval :=
  jsOr (jsOr (jsOr (JBool (strEq (trim searchQuery) []))
                   (fieldIncludes (summary event) searchQuery))
             (fieldIncludes (description event) searchQuery))
       (fieldIncludes (location event) searchQuery).

Definition matchesType (selectedType : str) (event : Event) : bool :=
  strEq selectedType (lit "all")
  || strictEq (eventType event) selectedType
  || (negb (truthyStr (eventType event)) && strEq selectedType (lit "default")).

(** The callback handed to [events.filter]; [filter] keeps the elements for
    which the returned value is truthy. *)
Definition keeps (searchQuery selectedType : str) (event : Event) : bool :=
  truthy (jsAnd (matchesSearch searchQuery event)
                (JBool (matchesType selectedType event))).

Definition filterEvents (events : list Event) (searchQuery selectedType : str)
  : list Event :=
  filter (keeps searchQuery selectedType) events.

(** ** Exporters *)

(** [o ? k(o) : other], the conditional on a possibly absent string. *)
Definition ifTruthy {A : Type} (o : option str) (k : str -> A) (other : A) : A :=
  match o with
  | Some (c :: s) => k (c :: s)
  | _ => other
  end.

(** [x?.f], optional chaining into [event.start] and [event.end]. *)
Definition chain (x : option EventDateTime) (f : EventDateTime -> option str)
  : option str :=
  match x with
  | Some d => f d
  | None => None
  end.

Definition dquote : ascii := ascii_of_nat 34.
Definition newline : ascii := ascii_of_nat 10.

(** The file offered to the browser by [exportToCSV]. *)
Record Download : Type := mkDownload {
  mimeType : str;
  fileName : str;
  content : str
}.

(** What a press on the PDF button leaves behind: nothing when the popup is
    blocked (the function returns at once); an opened window with nothing
    written when building the document throws; the document written to the
    window and sent to [print()]. *)
Inductive PrintResult : Type :=
| PopupBlocked
| HeadingFailed
| Printed (html : str).

Section Exporters.

(** [format d p] stands for date-fns' [format(new Date(d), p)]. *)
Variable format : str -> str -> str.

Definition headers : list str :=
  [lit "Title"; lit "Start"; lit "End"; lit "Location"; lit "Type";
   lit "Description"].

Definition csvData (filteredEvents : list Event) : list (list str) :=
  map (fun event =>
         [ orElse (summary event) (lit "Untitled Event");
           ifTruthy (chain (start event) dateTime)
             (fun d => format d (lit "PPp"))
             (ifTruthy (chain (start event) date)
                (fun d => format d (lit "PP")) (lit "N/A"));
           ifTruthy (chain (end_ event) dateTime)
             (fun d => format d (lit "PPp"))
             (ifTruthy (chain (end_ event) date)
                (fun d => format d (lit "PP")) (lit "N/A"));
           orElse (location event) (lit "No location");
           orElse (eventType event) (lit "Default");
           orElse (description event) [] ])
      filteredEvents.

(** The cell template: the cell between two double quotes, each double quote
    of the cell replaced by two. *)
Definition csvCell (cell : str) : str :=
  [dquote] ++ replaceAll dquote [dquote; dquote] cell ++ [dquote].

Definition csvContent (filteredEvents : list Event) : str :=
  join [newline]
       (join (lit ",") headers
        :: map (fun row => join (lit ",") (map csvCell row))
               (csvData filteredEvents)).

(** [today] is [format(new Date(), 'yyyy-MM-dd')] at the time of the click. *)
Definition exportToCSV (filteredEvents : list Event) (today : str) : Download :=
  {| mimeType := lit "text/csv;charset=utf-8;";
     fileName := lit "calendar_events_" ++ today ++ lit ".csv";
     content := csvContent filteredEvents |}.

Definition pdfRow (event : Event) : str :=
  lit "
                                <tr>
                                    <td>"
  ++ orElse (summary event) (lit "Untitled Event")
  ++ lit "</td>
                                    <td>"
  ++ ifTruthy (chain (start event) dateTime)
       (fun d => format d (lit "PPp"))
       (ifTruthy (chain (start event) date)
          (fun d => format d (lit "PP")) (lit "N/A"))
  ++ lit "</td>
                                    <td>"
  ++ ifTruthy (chain (end_ event) dateTime)
       (fun d => format d (lit "PPp"))
       (ifTruthy (chain (end_ event) date)
          (fun d => format d (lit "PP")) (lit "N/A"))
  ++ lit "</td>
                                    <td>"
  ++ orElse (location event) (lit "No location")
  ++ lit "</td>
                                    <td>"
  ++ orElse (eventType event) (lit "Default")
  ++ lit "</td>
                                </tr>
                            ".

(** The document template, with the two texts of its heading. *)
Definition pdfDocument (from to : str) (filteredEvents : list Event) : str :=
  lit "
            <html>
                <head>
                    <title>Calendar Events</title>
                    <style>
                        body { font-family: Arial, sans-serif; }
                        table { width: 100%; border-collapse: collapse; margin-top: 20px; }
                        th, td { padding: 8px; text-align: left; border-bottom: 1px solid #ddd; }
                        th { background-color: #f8f9fa; }
                        h1 { color: #333; }
                    </style>
                </head>
                <body>
                    <h1>Calendar Events ("
  ++ from ++ lit " - " ++ to
  ++ lit ")</h1>
                    <table>
                        <thead>
                            <tr>
                                <th>Title</th>
                                <th>Start</th>
                                <th>End</th>
                                <th>Location</th>
                                <th>Type</th>
                            </tr>
                        </thead>
                        <tbody>
                            "
  ++ join [] (map pdfRow filteredEvents)
  ++ lit "
                        </tbody>
                    </table>
                </body>
            </html>
        ".

(** [format(new Date(d), 'PP')] on the value of a date input. A cleared input
    holds the empty string, [new Date('')] is an invalid date and [format]
    throws a [RangeError] on it ([None]); any other value of a date input is
    a valid day. *)
Definition formatInput (d : str) : option str :=
  match d with
  | [] => None
  | _ :: _ => Some (format d (lit "PP"))
  end.

(** The template literal [html]: the heading is evaluated first, start
    before end; [None] when that throws. *)
Definition pdfHtml (filteredEvents : list Event) (startDate endDate : str)
  : option str :=
  match formatInput startDate with
  | None => None
  | Some from =>
      match formatInput endDate with
      | None => None
      | Some to => Some (pdfDocument from to filteredEvents)
      end
  end.

(** [printWindow] is [None] when [window.open] returns [null]. *)
Definition exportToPDF (printWindow : option unit)
    (filteredEvents : list Event) (startDate endDate : str) : PrintResult :=
  match printWindow with
  | None => PopupBlocked
  | Some _ =>
      match pdfHtml filteredEvents startDate endDate with
      | None => HeadingFailed
      | Some html => Printed html
      end
  end.

End Exporters.

(** ** The calendar fetcher ([src/lib/calendar.ts]) *)

Module Fetcher.

(** A [Date], by its time value in milliseconds since the epoch. *)
Record Date : Type := mkDate { getTime : Z }.

Record JsError : Type := mkError { message : str }.

(** The request handed to [fetch]: the URL with its search parameters in the
    order of the [append] calls, and the headers. *)
Record Request : Type := mkRequest {
  url : str;
  searchParams : list (str * str);
  requestHeaders : list (str * str)
}.

(** What [response.json()] resolves to: [errorData.error?.message] on the
    error path, [data.items] on the success path. *)
Record Body : Type := mkBody {
  errorMessage : option str;
  items : option (list Event)
}.

Record Response : Type := mkResponse {
  ok : bool;
  json : JsError + Body
}.

Inductive Effect : Type :=
| Fetch (r : Request)
| ConsoleError (label : str).

(** The surroundings of a call: the [accessToken] store, the clock (its
    successive readings) and the remote endpoint ([inl]: [fetch] rejects). *)
Record Env : Type := mkEnv {
  accessToken : option str;
  clock : nat -> Z;
  network : Request -> JsError + Response
}.

Record World : Type := mkWorld {
  ticks : nat;
  effects : list Effect
}.

Inductive Outcome (A : Type) : Type :=
| Returned (a : A)
| Thrown (e : JsError).
Arguments Returned {A} a.
Arguments Thrown {A} e.

Definition M (A : Type) : Type := Env -> World -> Outcome A * World.

Definition ret {A} (a : A) : M A := fun _ w => (Returned a, w).

Definition bind {A B} (m : M A) (k : A -> M B) : M B :=
  fun env w =>
    match m env w with
    | (Returned a, w') => k a env w'
    | (Thrown e, w') => (Thrown e, w')
    end.

Definition throw {A} (e : JsError) : M A := fun _ w => (Thrown e, w).

Definition tryCatch {A} (body : M A) (handler : JsError -> M A) : M A :=
  fun env w =>
    match body env w with
    | (Returned a, w') => (Returned a, w')
    | (Thrown e, w') => handler e env w'
    end.

Definition emit (e : Effect) : M unit :=
  fun _ w => (Returned tt, {| ticks := ticks w; effects := effects w ++ [e] |}).

(** [get(accessToken)] *)
Definition getAccessToken : M (option str) :=
  fun env w => (Returned (accessToken env), w).

(** [Date.now()], also the time value of [new Date()]: one clock reading. *)
Definition dateNow : M Z :=
  fun env w =>
    (Returned (clock env (ticks w)),
     {| ticks := S (ticks w); effects := effects w |}).

Definition fetch (r : Request) : M Response :=
  bind (emit (Fetch r))
       (fun _ env w =>
          match network env r with
          | inl e => (Thrown e, w)
          | inr resp => (Returned resp, w)
          end).

Definition responseJson (r : Response) : M Body :=
  match json r with
  | inl e => throw e
  | inr b => ret b
  end.

Definition consoleError (label : str) : M unit := emit (ConsoleError label).

Declare Scope js_scope.
Delimit Scope js_scope with js.
Notation "x <- m ;; k" := (bind m (fun x => k))
  (at level 61, m at next level, right associativity) : js_scope.
Notation "m ;; k" := (bind m (fun _ => k))
  (at level 61, right associativity) : js_scope.

Section GetCalendarEvents.

(** [Date.prototype.toISOString], on the time value. *)
Variable toISOString : Z -> str.

Local Open Scope js_scope.
Local Open Scope Z_scope.

Definition getCalendarEvents (startDate endDate : option Date)
  : M (list Event) :=
  tryCatch
    (token <- getAccessToken ;;
     if negb (truthyStr token) then
       throw (mkError (lit "No access token available"))
     else
       timeMin <- match startDate with
                  | Some d => ret (toISOString (getTime d))
                  | None => now <- dateNow ;; ret (toISOString now)
                  end ;;
       timeMax <- match endDate with
                  | Some d => ret (toISOString (getTime d))
                  | None =>
                      now <- dateNow ;;
                      ret (toISOString (now + 30 * 24 * 60 * 60 * 1000))
                  end ;;
       let request :=
         {| url := lit "https://www.googleapis.com/calendar/v3/calendars/primary/events";
            searchParams :=
              [ (lit "timeMin", timeMin);
                (lit "timeMax", timeMax);
                (lit "maxResults", lit "100");
                (lit "singleEvents", lit "true");
                (lit "orderBy", lit "startTime") ];
            requestHeaders :=
              [ (lit "Authorization", lit "Bearer " ++ templateText token);
                (lit "Accept", lit "application/json") ] |} in
       response <- fetch request ;;
       if negb (ok response) then
         errorData <- responseJson response ;;
         consoleError (lit "Calendar API Error:") ;;
         throw (mkError (orElse (errorMessage errorData)
                                (lit "Failed to fetch calendar events")))
       else
         data <- responseJson response ;;
         ret (match items data with
              | Some l => l
              | None => []
              end))
    (fun error =>
       consoleError (lit "Error fetching calendar events:") ;;
       throw error).

End GetCalendarEvents.

(** The requests among the effects of a run. *)
Fixpoint requests (l : list Effect) : list Request :=
  match l with
  | [] => []
  | Fetch r :: l' => r :: requests l'
  | ConsoleError _ :: l' => requests l'
  end.

End Fetcher.

(** ** The calendar component ([Calendar.svelte]) *)

Module Calendar.

Import Fetcher.

Record Component : Type := mkComponent {
  events : list Event;
  filteredEvents : list Event;
  loading : bool;
  error : option str;
  startDate : str;
  endDate : str;
  searchQuery : str;
  selectedType : str
}.

(** The values of the type selector's options. *)
Definition eventTypes : list str :=
  [lit "all"; lit "default"; lit "fromGmail"; lit "birthday";
   lit "workingLocation"].

(** [filterEvents()] as a method: it reads [events], [searchQuery] and
    [selectedType] and assigns [filteredEvents]. *)
Definition runFilterEvents (c : Component) : Component :=
  {| events := events c;
     filteredEvents := filterEvents (events c) (searchQuery c) (selectedType c);
     loading := loading c;
     error := error c;
     startDate := startDate c;
     endDate := endDate c;
     searchQuery := searchQuery c;
     selectedType := selectedType c |}.

(** [loadEvents] up to its [await]: the request is in flight. *)
Definition loadEventsBegin (c : Component) : Component :=
  {| events := events c;
     filteredEvents := filteredEvents c;
     loading := true;
     error := None;
     startDate := startDate c;
     endDate := endDate c;
     searchQuery := searchQuery c;
     selectedType := selectedType c |}.

(** [loadEvents] from its [await] on, with the settled call. A thrown value of
    [getCalendarEvents] is an [Error], so the handler stores its message. *)
Definition loadEventsSettle (r : Outcome (list Event)) (c : Component)
  : Component :=
  match r with
  | Returned evs =>
      let c' := runFilterEvents
                  {| events := evs;
                     filteredEvents := filteredEvents c;
                     loading := loading c;
                     error := error c;
                     startDate := startDate c;
                     endDate := endDate c;
                     searchQuery := searchQuery c;
                     selectedType := selectedType c |} in
      {| events := events c';
         filteredEvents := filteredEvents c';
         loading := false;
         error := error c';
         startDate := startDate c';
         endDate := endDate c';
         searchQuery := searchQuery c';
         selectedType := selectedType c' |}
  | Thrown e =>
      {| events := events c;
         filteredEvents := filteredEvents c;
         loading := false;
         error := Some (message e);
         startDate := startDate c;
         endDate := endDate c;
         searchQuery := searchQuery c;
         selectedType := selectedType c |}
  end.

(** [$: if (searchQuery !== undefined || selectedType) filterEvents()];
    [searchQuery] is a string, never [undefined]. *)
Definition reactiveFilter (c : Component) : Component :=
  if true || truthyStr (Some (selectedType c)) then runFilterEvents c else c.

(** [$: if (startDate || endDate) loadEvents()] *)
Definition reactiveLoad (c : Component) : Component :=
  if truthyStr (Some (startDate c)) || truthyStr (Some (endDate c))
  then loadEventsBegin c else c.

Definition setSearchQuery (q : str) (c : Component) : Component :=
  {| events := events c;
     filteredEvents := filteredEvents c;
     loading := loading c;
     error := error c;
     startDate := startDate c;
     endDate := endDate c;
     searchQuery := q;
     selectedType := selectedType c |}.

Definition setSelectedType (t : str) (c : Component) : Component :=
  {| events := events c;
     filteredEvents := filteredEvents c;
     loading := loading c;
     error := error c;
     startDate := startDate c;
     endDate := endDate c;
     searchQuery := searchQuery c;
     selectedType := t |}.

Definition setDates (s e : str) (c : Component) : Component :=
  {| events := events c;
     filteredEvents := filteredEvents c;
     loading := loading c;
     error := error c;
     startDate := s;
     endDate := e;
     searchQuery := searchQuery c;
     selectedType := selectedType c |}.

(** [setToday()]; [today] is [format(new Date(), 'yyyy-MM-dd')]. *)
Definition setToday (today : str) (c : Component) : Component :=
  setDates today today c.

(** What happens to the component: the user edits a bound input, presses
    Today ([today] is the formatted current day), or a pending call of
    [getCalendarEvents] settles. *)
Inductive Input : Type :=
| EditSearchQuery (q : str)
| SelectType (t : str)
| EditStartDate (d : str)
| EditEndDate (d : str)
| ClickToday (today : str)
| FetchSettled (r : Outcome (list Event)).

(** One input, followed by the reactive block whose variables it assigns.
    An assignment invalidates a variable only when its value changes, so an
    input that assigns the values already held runs no reactive block. *)
Definition step (c : Component) (i : Input) : Component :=
  match i with
  | EditSearchQuery q =>
      if strEq q (searchQuery c) then c
      else reactiveFilter (setSearchQuery q c)
  | SelectType t =>
      if strEq t (selectedType c) then c
      else reactiveFilter (setSelectedType t c)
  | EditStartDate d =>
      if strEq d (startDate c) then c
      else reactiveLoad (setDates d (endDate c) c)
  | EditEndDate d =>
      if strEq d (endDate c) then c
      else reactiveLoad (setDates (startDate c) d c)
  | ClickToday today =>
      if strEq today (startDate c) && strEq today (endDate c) then c
      else reactiveLoad (setToday today c)
  | FetchSettled r => loadEventsSettle r c
  end.

(** The script's initial values; the two dates are the formatted current day
    and the day thirty days later. *)
Definition initial (startDate0 endDate0 : str) : Component :=
  {| events := [];
     filteredEvents := [];
     loading := false;
     error := None;
     startDate := startDate0;
     endDate := endDate0;
     searchQuery := [];
     selectedType := lit "all" |}.

(** Instantiation runs both reactive blocks, then [onMount(loadEvents)]. *)
Definition mounted (startDate0 endDate0 : str) : Component :=
  loadEventsBegin (reactiveLoad (reactiveFilter (initial startDate0 endDate0))).

Definition run (c : Component) (inputs : list Input) : Component :=
  fold_left step inputs c.

(** The list delivered by the last successful fetch of a history, [[]] (the
    initial [events]) before the first one. *)
Fixpoint lastDelivered (inputs : list Input) (sofar : list Event)
  : list Event :=
  match inputs with
  | [] => sofar
  | FetchSettled (Returned evs) :: rest => lastDelivered rest evs
  | _ :: rest => lastDelivered rest sofar
  end.

(** The last value given to the search box, resp. the type selector. *)
Fixpoint lastQuery (inputs : list Input) (sofar : str) : str :=
  match inputs with
  | [] => sofar
  | EditSearchQuery q :: rest => lastQuery rest q
  | _ :: rest => lastQuery rest sofar
  end.

Fixpoint lastType (inputs : list Input) (sofar : str) : str :=
  match inputs with
  | [] => sofar
  | SelectType t :: rest => lastType rest t
  | _ :: rest => lastType rest sofar
  end.

End Calendar.

(** ** Reference notions used to state the properties *)

(** [s] contains [q] as a substring, letter case ignored: some segment of [s]
    has the same lower-case form as [q]. *)
Definition containsIgnoringCase (s q : str) : Prop :=
  exists pre mid post,
    s = pre ++ mid ++ post /\ toLowerCase mid = toLowerCase q.

(** A string made of white space only (the empty string included). *)
Definition whitespaceOnly (q : str) : Prop :=
  Forall (fun c => isWhiteSpace c = true) q.

(** A field without a value, as JavaScript's [!] and [||] see it: absent, or
    the empty string. *)
Definition noValue (o : option str) : Prop := o = None \/ o = Some [].

(** Reading a CSV cell back: strip the enclosing double quotes and undo the
    doubling; [None] when the text is not a well-formed quoted cell. *)
Fixpoint unquoteBody (s : str) : option str :=
  match s with
  | [] => None
  | c :: s' =>
      if Ascii.eqb c dquote then
        match s' with
        | [] => Some []
        | c' :: s'' =>
            if Ascii.eqb c' dquote then
              match unquoteBody s'' with
              | Some r => Some (dquote :: r)
              | None => None
              end
            else None
        end
      else
        match unquoteBody s' with
        | Some r => Some (c :: r)
        | None => None
        end
  end.

Definition unquoteCell (s : str) : option str :=
  match s with
  | c :: s' => if Ascii.eqb c dquote then unquoteBody s' else None
  | [] => None
  end.

(** A row of the printed table with the given cells, in the layout of the
    document template. *)
Definition tableRow (cells : list str) : str :=
  lit "
                                <tr>"
  ++ concat (map (fun cell => lit "
                                    <td>" ++ cell ++ lit "</td>") cells)
  ++ lit "
                                </tr>
                            ".

(** The text of an optional field: the fallback when the field has no value,
    the field itself otherwise. *)
Definition rendersText (o : option str) (fallback cell : str) : Prop :=
  (noValue o -> cell = fallback)
  /\ (forall s, o = Some s -> s <> [] -> cell = s).

(** The text of [event.start] or [event.end]: date and time when [dateTime]
    has a value, the date alone when only [date] has one, "N/A" otherwise. *)
Definition rendersDate (format : str -> str -> str)
    (x : option EventDateTime) (cell : str) : Prop :=
  (x = None -> cell = lit "N/A")
  /\ (forall dt, x = Some dt -> noValue (dateTime dt) -> noValue (date dt) ->
      cell = lit "N/A")
  /\ (forall dt d, x = Some dt -> dateTime dt = Some d -> d <> [] ->
      cell = format d (lit "PPp"))
  /\ (forall dt d, x = Some dt -> noValue (dateTime dt) -> date dt = Some d ->
      d <> [] -> cell = format d (lit "PP")).

(** The expression both exporters use for the start and the end cell. *)
Definition dateText (format : str -> str -> str) (x : option EventDateTime)
  : str :=
  ifTruthy (chain x dateTime) (fun d => format d (lit "PPp"))
    (ifTruthy (chain x date) (fun d => format d (lit "PP")) (lit "N/A")).

(** An empty string seen as an absent value. *)
Definition blankToAbsent (o : option str) : option str :=
  match o with
  | Some [] => None
  | _ => o
  end.

(** The event with its empty title, description, location and type removed. *)
Definition withoutBlanks (e : Event) : Event :=
  {| summary := blankToAbsent (summary e);
     description := blankToAbsent (description e);
     location := blankToAbsent (location e);
     eventType := blankToAbsent (eventType e);
     start := start e;
     end_ := end_ e |}.

(** [l] is [m] with some elements removed, the others in their order. *)
Inductive OrderedSelection {A : Type} : list A -> list A -> Prop :=
| selection_nil : OrderedSelection [] []
| selection_keep (a : A) (l m : list A) :
    OrderedSelection l m -> OrderedSelection (a :: l) (a :: m)
| selection_drop (a : A) (l m : list A) :
    OrderedSelection l m -> OrderedSelection l (a :: m).

(** [visible] is exactly the events of [delivered] that match the criteria,
    in the order of [delivered]. *)
Definition ExactlyTheMatching (visible delivered : list Event) (q t : str)
  : Prop :=
  OrderedSelection visible delivered
  /\ (forall e, In e visible -> keeps q t e = true)
  /\ visible = filter (keeps q t) delivered.

(** The invariant of the component: the visible list is the filter of the
    held list under the current criteria. *)
Definition consistent (c : Calendar.Component) : Prop :=
  Calendar.filteredEvents c
  = filterEvents (Calendar.events c) (Calendar.searchQuery c)
      (Calendar.selectedType c).

(** The time window of the request issued from the world [w]: a bound left
    unspecified is read off the clock at that point of the run. *)
Definition expectedTimeMin (toISOString : Z -> str) (env : Fetcher.Env) (w : Fetcher.World) (startDate : option Fetcher.Date)
  : str :=
  match startDate with
  | Some d => toISOString (Fetcher.getTime d)
  | None => toISOString (Fetcher.clock env (Fetcher.ticks w))
  end.

Definition expectedTimeMax (toISOString : Z -> str) (env : Fetcher.Env) (w : Fetcher.World)
    (startDate endDate : option Fetcher.Date) : str :=
  match endDate with
  | Some d => toISOString (Fetcher.getTime d)
  | None =>
      let reading :=
        match startDate with
        | Some _ => Fetcher.clock env (Fetcher.ticks w)
        | None => Fetcher.clock env (S (Fetcher.ticks w))
        end in
      toISOString (reading + 2592000000)%Z
  end.

(** ** Further parts of the code *)

(** *** The request of [getCalendarEvents] *)

(** The number of clock readings a bound costs: one when it is unspecified. *)
Definition unspecified (d : option Fetcher.Date) : nat :=
  match d with
  | Some _ => 0
  | None => 1
  end.

(** The request a call issues from the world [w] when a token is present. *)
Definition requestOf (toISOString : Z -> str) (env : Fetcher.Env)
    (w : Fetcher.World) (startDate endDate : option Fetcher.Date)
  : Fetcher.Request :=
  {| Fetcher.url :=
       lit "https://www.googleapis.com/calendar/v3/calendars/primary/events";
     Fetcher.searchParams :=
       [ (lit "timeMin", expectedTimeMin toISOString env w startDate);
         (lit "timeMax", expectedTimeMax toISOString env w startDate endDate);
         (lit "maxResults", lit "100");
         (lit "singleEvents", lit "true");
         (lit "orderBy", lit "startTime") ];
     Fetcher.requestHeaders :=
       [ (lit "Authorization",
          lit "Bearer " ++ templateText (Fetcher.accessToken env));
         (lit "Accept", lit "application/json") ] |}.

(** The world once the request has been handed to [fetch]. *)
Definition requested (toISOString : Z -> str) (env : Fetcher.Env)
    (w : Fetcher.World) (startDate endDate : option Fetcher.Date)
  : Fetcher.World :=
  {| Fetcher.ticks :=
       Fetcher.ticks w + unspecified startDate + unspecified endDate;
     Fetcher.effects :=
       Fetcher.effects w
       ++ [Fetcher.Fetch (requestOf toISOString env w startDate endDate)] |}.

(** The world after further console lines. *)
Definition logged (w : Fetcher.World) (labels : list str) : Fetcher.World :=
  {| Fetcher.ticks := Fetcher.ticks w;
     Fetcher.effects :=
       Fetcher.effects w ++ map Fetcher.ConsoleError labels |}.

(** [data.items || []] *)
Definition itemsOrEmpty (body : Fetcher.Body) : list Event :=
  match Fetcher.items body with
  | Some l => l
  | None => []
  end.

(** The console lines among the effects of a run. *)
Fixpoint consoleErrors (l : list Fetcher.Effect) : list str :=
  match l with
  | [] => []
  | Fetcher.Fetch _ :: l' => consoleErrors l'
  | Fetcher.ConsoleError label :: l' => label :: consoleErrors l'
  end.

(** *** Sign-in and sign-out ([routes/+page.svelte], [stores/auth.ts]) *)

Module Page.

(** [GoogleAuthProvider.credentialFromResult(result)]: an [OAuthCredential]
    with an optional [accessToken], or [null]. *)
Record Credential : Type := mkCredential {
  credentialAccessToken : option str
}.

(** How [signInWithPopup] settles: it rejects with an error carrying an
    optional [code], or resolves to a result with its credential. *)
Inductive SignIn : Type :=
| SignInRejected (code : option str)
| SignInResolved (credential : option Credential).

(** The [accessToken] store, the [calendar_access_token] entry of
    [localStorage], the page's guard and the console. Writes to the store
    and to the local storage are taken to succeed. *)
Record PageState : Type := mkPageState {
  accessTokenStore : option str;
  storedToken : option str;
  initialLoginInProgress : bool;
  consoleLines : list str
}.

(** [writable(browser ? localStorage.getItem('calendar_access_token') : null)] *)
Definition initialAccessToken (browser : bool) (stored : option str)
  : option str :=
  if browser then stored else None.

Definition loaded (browser : bool) (stored : option str) : PageState :=
  {| accessTokenStore := initialAccessToken browser stored;
     storedToken := stored;
     initialLoginInProgress := false;
     consoleLines := [] |}.

(** [handleLogin] up to its [await]; [None] when the guard returns at once. *)
Definition handleLoginBegin (p : PageState) : option PageState :=
  if initialLoginInProgress p then None
  else Some {| accessTokenStore := accessTokenStore p;
               storedToken := storedToken p;
               initialLoginInProgress := true;
               consoleLines := consoleLines p |}.

(** The [catch] block of [handleLogin] followed by its [finally]. *)
Definition signInFailed (code : option str) (p : PageState) : PageState :=
  {| accessTokenStore := None;
     storedToken := None;
     initialLoginInProgress := false;
     consoleLines :=
       consoleLines p ++ [lit "Error signing in:"]
       ++ (if strictEq code (lit "auth/popup-closed-by-user")
           then [lit "User closed the popup"] else []) |}.

(** [handleLogin] from its [await] on. The error thrown for a missing token
    is a plain [Error], without [code]. *)
Definition handleLoginSettle (r : SignIn) (p : PageState) : PageState :=
  match r with
  | SignInRejected code => signInFailed code p
  | SignInResolved credential =>
      let token := match credential with
                   | Some c => credentialAccessToken c
                   | None => None
                   end in
      if negb (truthyStr token) then signInFailed None p
      else {| accessTokenStore := token;
              storedToken := token;
              initialLoginInProgress := false;
              consoleLines :=
                consoleLines p ++ [lit "Sign-in successful with OAuth token"] |}
  end.

(** [handleLogout], once [signOut] has settled ([signedOut]: it resolved). *)
Definition handleLogout (signedOut : bool) (p : PageState) : PageState :=
  if signedOut then
    {| accessTokenStore := None;
       storedToken := None;
       initialLoginInProgress := initialLoginInProgress p;
       consoleLines := consoleLines p |}
  else
    {| accessTokenStore := accessTokenStore p;
       storedToken := storedToken p;
       initialLoginInProgress := initialLoginInProgress p;
       consoleLines := consoleLines p ++ [lit "Error signing out:"] |}.

Inductive PageInput : Type :=
| ClickLogin
| SignInSettled (r : SignIn)
| LogoutSettled (signedOut : bool).

Definition pageStep (p : PageState) (i : PageInput) : PageState :=
  match i with
  | ClickLogin =>
      match handleLoginBegin p with
      | Some p' => p'
      | None => p
      end
  | SignInSettled r => handleLoginSettle r p
  | LogoutSettled signedOut => handleLogout signedOut p
  end.

Definition pageRun (p : PageState) (inputs : list PageInput) : PageState :=
  fold_left pageStep inputs p.

(** [{#if $user && $accessToken}]: the calendar is shown, not the login
    screen; [user] tells whether the [user] store holds a user. *)
Definition showsCalendar (user : bool) (p : PageState) : bool :=
  user && truthyStr (accessTokenStore p).

(** The surroundings of a fetch issued from the page state [p]. *)
Definition envOf (p : PageState) (clock : nat -> Z)
    (network : Fetcher.Request -> Fetcher.JsError + Fetcher.Response)
  : Fetcher.Env :=
  {| Fetcher.accessToken := accessTokenStore p;
     Fetcher.clock := clock;
     Fetcher.network := network |}.

End Page.

(** *** What the component shows ([Calendar.svelte], the markup) *)

Module View.

Import Calendar.

(** A row of the on-screen table: the title with the description under it
    when there is one, start, end, the location (with its pin icon) or the
    greyed fallback, and the type. *)
Record ScreenRow : Type := mkScreenRow {
  cellTitle : str;
  cellDescription : option str;
  cellStart : str;
  cellEnd : str;
  cellLocation : str;
  locationPin : bool;
  cellType : str
}.

Inductive Panel : Type :=
| Spinner
| ErrorBox (text : str)
| EmptyNotice (text : str)
| EventTable (rows : list ScreenRow).

Section Markup.

Variable format : str -> str -> str.

Definition screenRow (event : Event) : ScreenRow :=
  {| cellTitle := orElse (summary event) (lit "Untitled Event");
     cellDescription :=
       ifTruthy (description event) (fun d => Some d) None;
     cellStart :=
       ifTruthy (chain (start event) dateTime)
         (fun d => format d (lit "PPp"))
         (ifTruthy (chain (start event) date)
            (fun d => format d (lit "PP")) (lit "N/A"));
     cellEnd :=
       ifTruthy (chain (end_ event) dateTime)
         (fun d => format d (lit "PPp"))
         (ifTruthy (chain (end_ event) date)
            (fun d => format d (lit "PP")) (lit "N/A"));
     cellLocation :=
       ifTruthy (location event) (fun l => l) (lit "No location");
     locationPin := ifTruthy (location event) (fun _ => true) false;
     cellType := orElse (eventType event) (lit "Default") |}.

(** The [{#if loading} ... {:else if error} ... {:else if
    filteredEvents.length === 0} ... {:else}] chain. *)
Definition panel (c : Component) : Panel :=
  if loading c then Spinner
  else if truthyStr (error c) then ErrorBox (templateText (error c))
  else if length (filteredEvents c) =? 0 then
    EmptyNotice
      (if truthyStr (Some (searchQuery c))
          || negb (strEq (selectedType c) (lit "all"))
       then lit "No events found matching your filters."
       else lit "No events found for the selected date range.")
  else EventTable (map screenRow (filteredEvents c)).

End Markup.

(** The details dialog: [selectedEvent] and [showModal]. *)
Record ModalState : Type := mkModalState {
  selectedEvent : option Event;
  showModal : bool
}.

Definition noModal : ModalState :=
  {| selectedEvent := None; showModal := false |}.

Definition openEventDetails (event : Event) (m : ModalState) : ModalState :=
  {| selectedEvent := Some event; showModal := true |}.

Definition closeModal (m : ModalState) : ModalState :=
  {| selectedEvent := None; showModal := false |}.

(** [{#if showModal && selectedEvent}]: the event shown, if any. *)
Definition modalShown (m : ModalState) : option Event :=
  if showModal m then selectedEvent m else None.

Inductive ModalInput : Type :=
| ClickRow (event : Event)
| ClickClose.

Definition modalStep (m : ModalState) (i : ModalInput) : ModalState :=
  match i with
  | ClickRow event => openEventDetails event m
  | ClickClose => closeModal m
  end.

(** The texts of the details dialog. *)
Record Details : Type := mkDetails {
  detailTitle : str;
  detailDate : str;
  detailTimes : option (str * str);
  detailLocation : option str;
  detailType : str;
  detailDescription : option str
}.

Definition details (format : str -> str -> str) (event : Event) : Details :=
  {| detailTitle := orElse (summary event) (lit "Untitled Event");
     detailDate :=
       ifTruthy (chain (start event) dateTime)
         (fun d => format d (lit "PPP"))
         (ifTruthy (chain (start event) date)
            (fun d => format d (lit "PPP")) (lit "No date"));
     detailTimes :=
       ifTruthy (chain (start event) dateTime)
         (fun d =>
            Some (format d (lit "p"),
                  ifTruthy (chain (end_ event) dateTime)
                    (fun d' => format d' (lit "p")) (lit "No end time")))
         None;
     detailLocation := ifTruthy (location event) (fun l => Some l) None;
     detailType := orElse (eventType event) (lit "Default");
     detailDescription :=
       ifTruthy (description event) (fun d => Some d) None |}.

End View.

(** *** [loadEvents] as a whole *)

(** One call of [loadEvents] with nothing happening between its start and the
    settling of its request. [newDate s] stands for [new Date(s)]. *)
Definition loadEvents (toISOString : Z -> str)
    (newDate : str -> Fetcher.Date) (env : Fetcher.Env) (w : Fetcher.World)
    (c : Calendar.Component) : Calendar.Component * Fetcher.World :=
  let c1 := Calendar.loadEventsBegin c in
  let r :=
    Fetcher.getCalendarEvents toISOString
      (if truthyStr (Some (Calendar.startDate c1))
       then Some (newDate (Calendar.startDate c1)) else None)
      (if truthyStr (Some (Calendar.endDate c1))
       then Some (newDate (Calendar.endDate c1)) else None)
      env w in
  (Calendar.loadEventsSettle (fst r) c1, snd r).

(** [s ? new Date(s) : undefined], the argument [loadEvents] passes for the
    value [s] of a date input. *)
Definition inputDate (newDate : str -> Fetcher.Date) (s : str)
  : option Fetcher.Date :=
  if truthyStr (Some s) then Some (newDate s) else None.

(** *** Reading the CSV export back *)

Definition comma : ascii := ascii_of_nat 44.

Inductive CsvState : Type :=
| ExpectCell
| InCell (acc : str)
| AfterQuote (acc : str).

(** A reader of fully quoted CSV rows: [acc] holds the current cell reversed,
    [row] the cells of the current row reversed, [rows] the finished rows
    reversed. A double quote inside a cell is either the first of a doubled
    one or the end of the cell; after a cell come a comma, a newline or the
    end of the text. *)
Fixpoint parseCsvFrom (st : CsvState) (row : list str) (rows : list (list str))
    (s : str) : option (list (list str)) :=
  match s with
  | [] =>
      match st with
      | AfterQuote acc => Some (rev (rev (rev acc :: row) :: rows))
      | _ => None
      end
  | c :: s' =>
      match st with
      | ExpectCell =>
          if Ascii.eqb c dquote then parseCsvFrom (InCell []) row rows s'
          else None
      | InCell acc =>
          if Ascii.eqb c dquote then parseCsvFrom (AfterQuote acc) row rows s'
          else parseCsvFrom (InCell (c :: acc)) row rows s'
      | AfterQuote acc =>
          if Ascii.eqb c dquote then
            parseCsvFrom (InCell (dquote :: acc)) row rows s'
          else if Ascii.eqb c comma then
            parseCsvFrom ExpectCell (rev acc :: row) rows s'
          else if Ascii.eqb c newline then
            parseCsvFrom ExpectCell [] (rev (rev acc :: row) :: rows) s'
          else None
      end
  end.

(** The text after the first newline, if there is one. *)
Fixpoint afterFirstLine (s : str) : option str :=
  match s with
  | [] => None
  | c :: s' => if Ascii.eqb c newline then Some s' else afterFirstLine s'
  end.

(** The text before the first newline. *)
Fixpoint firstLine (s : str) : str :=
  match s with
  | [] => []
  | c :: s' => if Ascii.eqb c newline then [] else c :: firstLine s'
  end.

(** The rows under the header line of a CSV text. *)
Definition parseCsv (s : str) : option (list (list str)) :=
  match afterFirstLine s with
  | None => Some []
  | Some body => parseCsvFrom ExpectCell [] [] body
  end.

(** *** Notions used to state the further properties *)

(** The token a settled sign-in yields: [credential?.accessToken]. *)
Definition signInToken (r : Page.SignIn) : option str :=
  match r with
  | Page.SignInResolved (Some c) => Page.credentialAccessToken c
  | _ => None
  end.

(** Inputs of the component that neither start a fetch nor report a failed
    one: search edits, type selections and successful fetches. *)
Definition quiet (i : Calendar.Input) : bool :=
  match i with
  | Calendar.EditSearchQuery _ => true
  | Calendar.SelectType _ => true
  | Calendar.FetchSettled (Fetcher.Returned _) => true
  | _ => false
  end.

(** The text of one CSV row. *)
Definition csvRowText (row : list str) : str :=
  join (lit ",") (map csvCell row).

(** The separator between two cells of a printed row. *)
Definition cellBreak : str :=
  lit "</td>
                                    <td>".

(** A text that reads as three cells in a printed row: [a], then the fallback
    texts of a missing start and a missing end, then [b]. *)
Definition threeCells (a b : str) : str :=
  a ++ cellBreak ++ lit "N/A" ++ cellBreak ++ lit "N/A" ++ cellBreak ++ b.

(** An event with a title, a location and a type, and no dates. *)
Definition undated (title place : str) (kind : option str) : Event :=
  {| summary := Some title;
     description := None;
     location := Some place;
     eventType := kind;
     start := None;
     end_ := None |}.

(** What the dialog shows after a sequence of clicks should be the event of
    the last click, if that was a click on a row. *)
Definition lastClicked (inputs : list View.ModalInput) : option Event :=
  match last inputs View.ClickClose with
  | View.ClickRow event => Some event
  | View.ClickClose => None
  end.

(** An input that reports a settled fetch. *)
Definition settles (i : Calendar.Input) : bool :=
  match i with
  | Calendar.FetchSettled _ => true
  | _ => false
  end.

(** ** The filter over all UTF-16 code units

    The text test again, on strings of 16-bit code units, with the platform's
    [toLowerCase] as a parameter; [trim] is modelled in full. The filter of
    the sections above is its restriction to code units below U+0100 (see
    [keeps_widen] below). *)

Module Wide.

Local Open Scope N_scope.

Definition wstr : Type := list N.

(** A string of 8-bit units as a string of code units. *)
Definition widen (s : str) : wstr := map N_of_ascii s.

Fixpoint strEq (a b : wstr) : bool :=
  match a, b with
  | [], [] => true
  | x :: a', y :: b' => (x =? y) && strEq a' b'
  | _, _ => false
  end.

(** WhiteSpace and LineTerminator, the code units [trim] strips: TAB, LF,
    VT, FF, CR, SP, NBSP, U+1680, U+2000 to U+200A, LS, PS, U+202F, U+205F,
    U+3000 and the byte order mark U+FEFF. *)
Definition isWhiteSpace (u : N) : bool :=
  ((9 <=? u) && (u <=? 13)) || (u =? 32) || (u =? 160) || (u =? 5760)
  || ((8192 <=? u) && (u <=? 8202)) || (u =? 8232) || (u =? 8233)
  || (u =? 8239) || (u =? 8287) || (u =? 12288) || (u =? 65279).

Fixpoint trimStart (s : wstr) : wstr :=
  match s with
  | u :: s' => if isWhiteSpace u then trimStart s' else s
  | [] => []
  end.

Definition trimEnd (s : wstr) : wstr := rev (trimStart (rev s)).

Definition trim (s : wstr) : wstr := trimEnd (trimStart s).

Fixpoint startsWith (s q : wstr) {struct q} : bool :=
  match q, s with
  | [], _ => true
  | y :: q', x :: s' => (x =? y) && startsWith s' q'
  | _ :: _, [] => false
  end.

Fixpoint includes (s q : wstr) : bool :=
  startsWith s q ||
  match s with
  | [] => false
  | _ :: s' => includes s' q
  end.

Definition truthyStr (o : option wstr) : bool :=
  match o with
  | Some (_ :: _) => true
  | _ => false
  end.

Definition strictEq (o : option wstr) (t : wstr) : bool :=
  match o with
  | Some s => strEq s t
  | None => false
  end.

(** *** Lower-casing of Basic Latin, Latin-1 and Greek letters

    [String.prototype.toLowerCase] on strings over U+0000 to U+00FF and the
    Greek letters U+0391 to U+03C9; other code units are left as they are.
    A capital sigma becomes the final sigma U+03C2 when a cased letter comes
    before it (case-ignorable units apart) and none comes after it, and the
    small sigma U+03C3 otherwise. *)

Definition isCased (u : N) : bool :=
  ((65 <=? u) && (u <=? 90)) || ((97 <=? u) && (u <=? 122))
  || (u =? 170) || (u =? 181) || (u =? 186)
  || ((192 <=? u) && (u <=? 214)) || ((216 <=? u) && (u <=? 246))
  || ((248 <=? u) && (u <=? 255))
  || ((913 <=? u) && (u <=? 929)) || ((931 <=? u) && (u <=? 937))
  || ((945 <=? u) && (u <=? 969)).

Definition isCaseIgnorable (u : N) : bool :=
  (u =? 39) || (u =? 46) || (u =? 58) || (u =? 94) || (u =? 96)
  || (u =? 168) || (u =? 173) || (u =? 175) || (u =? 180) || (u =? 183)
  || (u =? 184).

Definition capitalSigma : N := 931.
Definition smallSigma : N := 963.
Definition finalSigma : N := 962.

Definition lowerUnit (u : N) : N :=
  if ((65 <=? u) && (u <=? 90))
     || ((192 <=? u) && (u <=? 222) && negb (u =? 215))
     || ((913 <=? u) && (u <=? 929)) || ((931 <=? u) && (u <=? 937))
  then u + 32 else u.

(** A cased letter follows, after any number of case-ignorable units. *)
Fixpoint casedAhead (s : wstr) : bool :=
  match s with
  | [] => false
  | u :: s' =>
      if isCased u then true
      else if isCaseIgnorable u then casedAhead s' else false
  end.

(** [after]: a cased letter came before, case-ignorable units apart. *)
Fixpoint lowerFrom (after : bool) (s : wstr) : wstr :=
  match s with
  | [] => []
  | u :: s' =>
      (if u =? capitalSigma then
         if after && negb (casedAhead s') then finalSigma else smallSigma
       else lowerUnit u)
      :: lowerFrom (if isCased u then true
                    else if isCaseIgnorable u then after else false) s'
  end.

Definition toLowerCase (s : wstr) : wstr := lowerFrom false s.

(** *** The filter *)

(** The fields of an event the filter reads. *)
Record Event : Type := mkEvent {
  summary : option wstr;
  description : option wstr;
  location : option wstr;
  eventType : option wstr
}.

Section Filter.

(** [String.prototype.toLowerCase] of the platform. *)
Variable toLowerCase : wstr -> wstr.

Definition fieldIncludes (field : option wstr) (searchQuery : wstr) : jsval :=
  match field with
  | None => JUndefined
  | Some s => JBool (includes (toLowerCase s) (toLowerCase searchQuery))
  end.

Definition matchesSearch (searchQuery : wstr) (event : Event) : jsval :=
  jsOr (jsOr (jsOr (JBool (strEq (trim searchQuery) []))
                   (fieldIncludes (summary event) searchQuery))
             (fieldIncludes (description event) searchQuery))
       (fieldIncludes (location event) searchQuery).

Definition matchesType (selectedType : wstr) (event : Event) : bool :=
  strEq selectedType (widen (lit "all"))
  || strictEq (eventType event) selectedType
  || (negb (truthyStr (eventType event))
      && strEq selectedType (widen (lit "default"))).

Definition keeps (searchQuery selectedType : wstr) (event : Event) : bool :=
  truthy (jsAnd (matchesSearch searchQuery event)
                (JBool (matchesType selectedType event))).

Definition filterEvents (events : list Event)
    (searchQuery selectedType : wstr) : list Event :=
  filter (keeps searchQuery selectedType) events.

End Filter.

(** *** Notions used to state the properties *)

(** The code units that count as white space, one by one. *)
Definition whiteSpaceUnits : list N :=
  [9; 10; 11; 12; 13; 32; 160; 5760; 8192; 8193; 8194; 8195; 8196; 8197;
   8198; 8199; 8200; 8201; 8202; 8232; 8233; 8239; 8287; 12288; 65279].

Definition whiteSpaceOnly (q : wstr) : Prop :=
  Forall (fun u => In u whiteSpaceUnits) q.

(** [b] occurs in [a] as a contiguous segment. *)
Definition segmentOf (b a : wstr) : Prop :=
  exists pre post, a = pre ++ b ++ post.

(** Two code units that are the same letter, letter case ignored: equal, or
    a capital and its small letter; the three sigmas are one letter. *)
Definition foldUnit (u : N) : N :=
  if u =? finalSigma then smallSigma else lowerUnit u.

Definition sameLetter (a b : N) : Prop := foldUnit a = foldUnit b.

(** [s] contains [q] as a substring, letter case ignored. *)
Definition containsIgnoringCase (s q : wstr) : Prop :=
  exists pre mid post, s = pre ++ mid ++ post /\ Forall2 sameLetter mid q.


(** An event of the narrow model as an event of this one. *)
Definition widenField (o : option str) : option wstr :=
  match o with
  | Some s => Some (widen s)
  | None => None
  end.

(** The Greek words of the example: alpha sigma alpha, and alpha sigma. *)
Definition alphaSigmaAlpha : wstr := [913; 931; 913].
Definition alphaSigma : wstr := [913; 931].


End Wide.

(** An event of the narrow model as an event over all code units. *)
Definition widenEvent (e : Event) : Wide.Event :=
  {| Wide.summary := Wide.widenField (summary e);
     Wide.description := Wide.widenField (description e);
     Wide.location := Wide.widenField (location e);
     Wide.eventType := Wide.widenField (eventType e) |}.

(** ** Sample events and surroundings *)

Module Samples.

Import Fetcher Calendar.

Definition sampleFormat (d p : str) : str := p ++ lit ":" ++ d.

Definition standup : Event :=
  {| summary := Some (lit "Team Standup");
     description := Some (lit "Daily sync");
     location := None;
     eventType := None;
     start := Some {| dateTime := Some (lit "2024-01-15T10:00:00Z");
                      date := None |};
     end_ := Some {| dateTime := Some (lit "2024-01-15T10:15:00Z");
                     date := None |} |}.

Definition birthday : Event :=
  {| summary := None;
     description := None;
     location := Some (lit "Home");
     eventType := Some (lit "birthday");
     start := Some {| dateTime := None; date := Some (lit "2024-01-15") |};
     end_ := None |}.

Definition quoted : Event :=
  {| summary := Some (lit "A" ++ [dquote] ++ lit "B");
     description := None;
     location := None;
     eventType := None;
     start := None;
     end_ := None |}.

Definition offline : Env :=
  {| accessToken := None;
     clock := fun n => (1000 + Z.of_nat n)%Z;
     network := fun _ => inl (mkError (lit "Failed to fetch")) |}.

Definition online : Env :=
  {| accessToken := Some (lit "ya29.token");
     clock := fun n => (1000 + Z.of_nat n)%Z;
     network := fun _ =>
       inr {| ok := true;
              json := inr {| errorMessage := None;
                             items := Some [standup; birthday] |} |} |}.

Definition fresh : World := {| ticks := 0; effects := [] |}.

Definition sampleISO (t : Z) : str :=
  if (t <? 2000)%Z then lit "early" else lit "late".

End Samples.

(** *** More sample surroundings *)

Module MoreSamples.

Import Fetcher.

Definition okBody : Body :=
  {| errorMessage := None;
     items := Some [Samples.standup; Samples.birthday] |}.

Definition okResponse : Response := {| ok := true; json := inr okBody |}.

Definition quotaBody : Body :=
  {| errorMessage := Some (lit "Quota exceeded"); items := None |}.

Definition quotaResponse : Response :=
  {| ok := false; json := inr quotaBody |}.

(** A signed-in session whose endpoint refuses the request. *)
Definition refused : Env :=
  {| accessToken := Some (lit "ya29.token");
     clock := fun n => (1000 + Z.of_nat n)%Z;
     network := fun _ => inr quotaResponse |}.

(** A signed-in session without connectivity. *)
Definition unreachable : Env :=
  {| accessToken := Some (lit "ya29.token");
     clock := fun n => (1000 + Z.of_nat n)%Z;
     network := fun _ => inl (mkError (lit "Failed to fetch")) |}.

Definition january : Date := {| getTime := 1704067200000 |}.
Definition february : Date := {| getTime := 1706745600000 |}.

End MoreSamples.

(** * Properties *)

(** ** Facts on the string primitives *)

Lemma strEq_true_iff (a b : str) : strEq a b = true <-> a = b.
Proof.
  revert b; induction a as [|x a IH]; intros [|y b]; simpl;
    try (split; [discriminate | congruence]); try tauto.
  rewrite andb_true_iff, Ascii.eqb_eq, IH.
  split; [intros [-> ->]; reflexivity | intros [= -> ->]; auto].
Qed.

Lemma strEq_refl (a : str) : strEq a a = true.
Proof. apply strEq_true_iff; reflexivity. Qed.

Lemma strEq_false_iff (a b : str) : strEq a b = false <-> a <> b.
Proof.
  rewrite <- not_true_iff_false, strEq_true_iff; tauto.
Qed.

Lemma trimStart_nil_iff (s : str) :
  trimStart s = [] <-> forallb isWhiteSpace s = true.
Proof.
  induction s as [|c s IH]; simpl; [tauto|].
  destruct (isWhiteSpace c); simpl; [exact IH | split; discriminate].
Qed.

Lemma trimStart_head (s : str) (c : ascii) (t : str) :
  trimStart s = c :: t -> isWhiteSpace c = false.
Proof.
  induction s as [|d s IH]; simpl; [discriminate|].
  destruct (isWhiteSpace d) eqn:W; [exact IH|].
  intros E; injection E as -> _; exact W.
Qed.

Lemma trim_nil_iff (s : str) : trim s = [] <-> whitespaceOnly s.
Proof.
  unfold whitespaceOnly; rewrite Forall_forall, <- forallb_forall,
    <- trimStart_nil_iff.
  unfold trim, trimEnd; split; intros H.
  - destruct (trimStart s) as [|c t] eqn:E; [reflexivity|].
    exfalso.
    apply trimStart_head in E.
    apply (f_equal (@rev ascii)) in H; rewrite rev_involutive in H.
    simpl rev at 2 in H.
    apply trimStart_nil_iff in H.
    rewrite forallb_forall in H.
    rewrite (H c) in E; [discriminate|].
    apply in_rev; rewrite rev_involutive; left; reflexivity.
  - rewrite H; reflexivity.
Qed.

Lemma startsWith_iff (s q : str) :
  startsWith s q = true <-> exists post, s = q ++ post.
Proof.
  revert s; induction q as [|y q IH]; intros s; simpl.
  - split; [intros _; exists s; reflexivity | reflexivity].
  - destruct s as [|x s].
    + split; [discriminate | intros [post E]; discriminate].
    + rewrite andb_true_iff, Ascii.eqb_eq, IH; split.
      * intros [-> [post ->]]; exists post; reflexivity.
      * intros [post E]; injection E as -> ->; split; [reflexivity|].
        exists post; reflexivity.
Qed.

Lemma includes_iff (s q : str) :
  includes s q = true <-> exists pre post, s = pre ++ q ++ post.
Proof.
  induction s as [|x s IH]; simpl; rewrite orb_true_iff, startsWith_iff.
  - split.
    + intros [[post E] | H]; [|discriminate].
      exists [], post; exact E.
    + intros (pre & post & E); left.
      destruct pre; [exists post; exact E | discriminate].
  - rewrite IH; split.
    + intros [[post E] | (pre & post & E)].
      * exists [], post; exact E.
      * exists (x :: pre), post; rewrite E; reflexivity.
    + intros (pre & post & E); destruct pre as [|p pre]; simpl in E.
      * left; exists post; exact E.
      * right; injection E as _ ->; exists pre, post; reflexivity.
Qed.

Lemma includes_nil (s : str) : includes s [] = true.
Proof. destruct s; reflexivity. Qed.

Lemma includes_nil_l (q : str) : includes [] q = true -> q = [].
Proof. destruct q; [reflexivity | discriminate]. Qed.

Lemma includes_lower_iff (s q : str) :
  includes (toLowerCase s) (toLowerCase q) = true <-> containsIgnoringCase s q.
Proof.
  unfold containsIgnoringCase, toLowerCase; rewrite includes_iff; split.
  - intros (pre & post & E).
    apply map_eq_app in E; destruct E as (pre' & rest & -> & <- & E).
    apply map_eq_app in E; destruct E as (mid & post' & -> & E & <-).
    exists pre', mid, post'; split; [reflexivity | exact E].
  - intros (pre & mid & post & -> & E).
    exists (map lowerChar pre), (map lowerChar post).
    rewrite !map_app, E; reflexivity.
Qed.

(** ** The two tests of the filter *)

Lemma truthy_jsOr (a b : jsval) : truthy (jsOr a b) = truthy a || truthy b.
Proof. unfold jsOr; destruct (truthy a) eqn:E; simpl; auto. Qed.

Lemma truthy_jsAnd (a b : jsval) : truthy (jsAnd a b) = truthy a && truthy b.
Proof. unfold jsAnd; destruct (truthy a) eqn:E; simpl; auto. Qed.

Lemma truthy_fieldIncludes (field : option str) (q : str) :
  truthy (fieldIncludes field q) = true <->
  exists s, field = Some s /\ containsIgnoringCase s q.
Proof.
  destruct field as [s|]; simpl.
  - rewrite includes_lower_iff; split.
    + intros H; exists s; auto.
    + intros (s' & [= <-] & H); exact H.
  - split; [discriminate | intros (s & E & _); discriminate].
Qed.

Lemma keeps_eq (q t : str) (e : Event) :
  keeps q t e = truthy (matchesSearch q e) && matchesType t e.
Proof. unfold keeps; rewrite truthy_jsAnd; reflexivity. Qed.

Lemma truthyStr_false_iff (o : option str) :
  truthyStr o = false <-> noValue o.
Proof.
  unfold noValue; destruct o as [[|c s]|]; simpl; split;
    try discriminate; auto; intros [H|H]; discriminate.
Qed.

Lemma lit_all_default : lit "all" <> lit "default".
Proof. discriminate. Qed.

Lemma matchesSearch_iff (q : str) (e : Event) :
  truthy (matchesSearch q e) = true <->
  whitespaceOnly q \/
  exists s, (summary e = Some s \/ description e = Some s \/ location e = Some s)
            /\ containsIgnoringCase s q.
Proof.
  unfold matchesSearch; rewrite !truthy_jsOr, !orb_true_iff; simpl truthy at 1.
  rewrite strEq_true_iff, trim_nil_iff, !truthy_fieldIncludes; split.
  - intros [[[H | (s & E & H)] | (s & E & H)] | (s & E & H)]; eauto 6.
  - intros [H | (s & [E | [E | E]] & H)]; eauto 7.
Qed.

Lemma matchesType_all (e : Event) : matchesType (lit "all") e = true.
Proof. reflexivity. Qed.

Lemma matchesType_iff (t : str) (e : Event) :
  t <> lit "all" ->
  (matchesType t e = true <->
   eventType e = Some t \/ (noValue (eventType e) /\ t = lit "default")).
Proof.
  intros Hall; unfold matchesType.
  apply strEq_false_iff in Hall; rewrite Hall; simpl orb.
  rewrite orb_true_iff, andb_true_iff, negb_true_iff, truthyStr_false_iff,
    strEq_true_iff.
  unfold strictEq; destruct (eventType e) as [s|].
  - rewrite strEq_true_iff; split; (intros [H | H]; [left | right; exact H]);
      congruence.
  - split; (intros [H | H]; [discriminate | right; exact H]).
Qed.

Lemma in_filterEvents (E : list Event) (q t : str) (e : Event) :
  In e (filterEvents E q t) <->
  In e E /\ truthy (matchesSearch q e) = true /\ matchesType t e = true.
Proof.
  unfold filterEvents; rewrite filter_In, keeps_eq, andb_true_iff; tauto.
Qed.

(** C3. Under the selector "all" every event passes the type test. Under any
    other selector an event passes exactly when its [eventType] equals the
    selector, or when it has no [eventType] value and the selector is
    "default" (the source tests [!event.eventType], so "no value" is absent
    or empty). Hence an event with no declared type passes under "default"
    and fails under every selector other than "all" and "default". *)
Theorem C3_type_test (E : list Event) (t : str) (e : Event) :
  matchesType (lit "all") e = true
  /\ (t <> lit "all" ->
      (matchesType t e = true <->
       eventType e = Some t \/ (noValue (eventType e) /\ t = lit "default")))
  /\ (eventType e = None ->
      matchesType (lit "default") e = true
      /\ (t <> lit "all" -> t <> lit "default" -> matchesType t e = false)
      /\ (In e E -> In e (filterEvents E [] (lit "default")))
      /\ (t <> lit "all" -> t <> lit "default" ->
          forall q, ~ In e (filterEvents E q t))).
Proof.
  split; [apply matchesType_all|].
  split; [apply matchesType_iff|].
  intros Hnone.
  assert (Hdef : matchesType (lit "default") e = true).
  { apply matchesType_iff; [discriminate|].
    right; split; [left; exact Hnone | reflexivity]. }
  assert (Hoth : t <> lit "all" -> t <> lit "default" ->
                 matchesType t e = false).
  { intros Ha Hd; apply not_true_iff_false; intros H.
    apply matchesType_iff in H; [|exact Ha].
    destruct H as [H | [_ H]]; congruence. }
  repeat split; auto.
  - intros Hin; apply in_filterEvents; repeat split; auto.
  - intros Ha Hd q Hin; apply in_filterEvents in Hin.
    destruct Hin as (_ & _ & H); rewrite (Hoth Ha Hd) in H; discriminate.
Qed.

Lemma filter_idem {A : Type} (p : A -> bool) (l : list A) :
  filter p (filter p l) = filter p l.
Proof.
  induction l as [|a l IH]; simpl; [reflexivity|].
  destruct (p a) eqn:E; simpl; [rewrite E, IH|]; auto.
Qed.

(** C5. Filtering is idempotent: filtering the result of filtering [E] with
    [(q, t)] again with [(q, t)] yields the same list. *)
Theorem C5_filter_idempotent (E : list Event) (q t : str) :
  filterEvents (filterEvents E q t) q t = filterEvents E q t.
Proof. unfold filterEvents; apply filter_idem. Qed.

Lemma keeps_empty_all (e : Event) : keeps [] (lit "all") e = true.
Proof. reflexivity. Qed.

(** C6. With the empty query and the selector "all" the filter returns the
    list itself: same elements, same order. *)
Theorem C6_filter_identity (E : list Event) :
  filterEvents E [] (lit "all") = E.
Proof.
  unfold filterEvents; induction E as [|e E IH]; cbn [filter]; [reflexivity|].
  rewrite keeps_empty_all, IH; reflexivity.
Qed.

(** ** The text test over all code units *)

Module WideFacts.

Import Wide.

Lemma wide_strEq_true_iff (a b : wstr) : strEq a b = true <-> a = b.
Proof.
  revert b; induction a as [|x a IH]; intros [|y b]; simpl;
    try (split; [discriminate | congruence]); try tauto.
  rewrite andb_true_iff, N.eqb_eq, IH.
  split; [intros [-> ->]; reflexivity | intros [= -> ->]; auto].
Qed.

Lemma isWhiteSpace_iff (u : N) :
  isWhiteSpace u = true <-> In u whiteSpaceUnits.
Proof.
  split.
  - unfold isWhiteSpace.
    rewrite !orb_true_iff, !andb_true_iff, !N.leb_le, !N.eqb_eq.
    intros H; unfold whiteSpaceUnits; cbn [In]; lia.
  - unfold whiteSpaceUnits; cbn [In]; intros H.
    repeat (destruct H as [<- | H]; [reflexivity|]); contradiction.
Qed.

Lemma wide_trimStart_nil_iff (s : wstr) :
  trimStart s = [] <-> forallb isWhiteSpace s = true.
Proof.
  induction s as [|u s IH]; simpl; [tauto|].
  destruct (isWhiteSpace u); simpl; [exact IH | split; discriminate].
Qed.

Lemma wide_trimStart_head (s : wstr) (u : N) (t : wstr) :
  trimStart s = u :: t -> isWhiteSpace u = false.
Proof.
  induction s as [|d s IH]; simpl; [discriminate|].
  destruct (isWhiteSpace d) eqn:W; [exact IH|].
  intros E; injection E as -> _; exact W.
Qed.

Lemma wide_trim_nil_iff (s : wstr) : trim s = [] <-> whiteSpaceOnly s.
Proof.
  assert (B : forallb isWhiteSpace s = true <-> whiteSpaceOnly s).
  { unfold whiteSpaceOnly; rewrite forallb_forall, Forall_forall.
    split; intros H u Hu; apply isWhiteSpace_iff, H, Hu. }
  rewrite <- B, <- wide_trimStart_nil_iff.
  unfold trim, trimEnd; split; intros H.
  - destruct (trimStart s) as [|u t] eqn:E; [reflexivity|].
    exfalso.
    apply wide_trimStart_head in E.
    apply (f_equal (@rev N)) in H; rewrite rev_involutive in H.
    simpl rev at 2 in H.
    apply wide_trimStart_nil_iff in H.
    rewrite forallb_forall in H.
    rewrite (H u) in E; [discriminate|].
    apply in_rev; rewrite rev_involutive; left; reflexivity.
  - rewrite H; reflexivity.
Qed.

Lemma wide_startsWith_iff (s q : wstr) :
  startsWith s q = true <-> exists post, s = q ++ post.
Proof.
  revert s; induction q as [|y q IH]; intros s; simpl.
  - split; [intros _; exists s; reflexivity | reflexivity].
  - destruct s as [|x s].
    + split; [discriminate | intros [post E]; discriminate].
    + rewrite andb_true_iff, N.eqb_eq, IH; split.
      * intros [-> [post ->]]; exists post; reflexivity.
      * intros [post E]; injection E as -> ->; split; [reflexivity|].
        exists post; reflexivity.
Qed.

Lemma wide_includes_iff (s q : wstr) : includes s q = true <-> segmentOf q s.
Proof.
  unfold segmentOf.
  induction s as [|x s IH]; simpl; rewrite orb_true_iff, wide_startsWith_iff.
  - split.
    + intros [[post E] | H]; [|discriminate].
      exists [], post; exact E.
    + intros (pre & post & E); left.
      destruct pre; [exists post; exact E | discriminate].
  - rewrite IH; split.
    + intros [[post E] | (pre & post & E)].
      * exists [], post; exact E.
      * exists (x :: pre), post; rewrite E; reflexivity.
    + intros (pre & post & E); destruct pre as [|p pre]; simpl in E.
      * left; exists post; exact E.
      * right; injection E as _ ->; exists pre, post; reflexivity.
Qed.

Lemma segmentOf_trans (a b c : wstr) :
  segmentOf a b -> segmentOf b c -> segmentOf a c.
Proof.
  intros (p1 & q1 & ->) (p2 & q2 & ->).
  exists (p2 ++ p1), (q1 ++ q2); rewrite <- !app_assoc; reflexivity.
Qed.

Section WithLowerCase.

Variable toLowerCase : wstr -> wstr.

Lemma wide_truthy_fieldIncludes (field : option wstr) (q : wstr) :
  truthy (fieldIncludes toLowerCase field q) = true <->
  exists s, field = Some s /\ segmentOf (toLowerCase q) (toLowerCase s).
Proof.
  destruct field as [s|]; simpl.
  - rewrite wide_includes_iff; split.
    + intros H; exists s; auto.
    + intros (s' & [= <-] & H); exact H.
  - split; [discriminate | intros (s & E & _); discriminate].
Qed.

Lemma wide_matchesSearch_iff (q : wstr) (e : Event) :
  truthy (matchesSearch toLowerCase q e) = true <->
  whiteSpaceOnly q \/
  exists s,
    (summary e = Some s \/ description e = Some s \/ location e = Some s)
    /\ segmentOf (toLowerCase q) (toLowerCase s).
Proof.
  unfold matchesSearch; rewrite !truthy_jsOr, !orb_true_iff; simpl truthy at 1.
  rewrite wide_strEq_true_iff, wide_trim_nil_iff, !wide_truthy_fieldIncludes; split.
  - intros [[[H | (s & E & H)] | (s & E & H)] | (s & E & H)]; eauto 6.
  - intros [H | (s & [E | [E | E]] & H)]; eauto 7.
Qed.

Lemma wide_keeps_eq (q t : wstr) (e : Event) :
  keeps toLowerCase q t e
  = truthy (matchesSearch toLowerCase q e) && matchesType t e.
Proof. unfold keeps; rewrite truthy_jsAnd; reflexivity. Qed.



End WithLowerCase.

Local Open Scope N_scope.

Example lower_greek :
  toLowerCase alphaSigmaAlpha = [945; 963; 945]
  /\ toLowerCase alphaSigma = [945; 962].
Proof. split; reflexivity. Qed.

Example lower_latin :
  toLowerCase (widen (lit "Team STANDUP")) = widen (lit "team standup").
Proof. reflexivity. Qed.

Example trim_wide :
  trim ([65279; 8195] ++ widen (lit " a b ") ++ [12288; 8232])
  = widen (lit "a b").
Proof. reflexivity. Qed.


End WideFacts.

(** ** The narrow filter is the restriction of the wide one *)

Module NarrowIsWide.

Lemma N_of_ascii_inj (a b : ascii) : N_of_ascii a = N_of_ascii b -> a = b.
Proof.
  intros H; rewrite <- (ascii_N_embedding a), <- (ascii_N_embedding b), H.
  reflexivity.
Qed.

Lemma unit_eqb (a b : ascii) :
  N.eqb (N_of_ascii a) (N_of_ascii b) = Ascii.eqb a b.
Proof.
  destruct (Ascii.eqb_spec a b) as [-> | D]; [apply N.eqb_refl|].
  apply N.eqb_neq; intros H; apply D, N_of_ascii_inj, H.
Qed.

Lemma strEq_widen (a b : str) :
  Wide.strEq (Wide.widen a) (Wide.widen b) = strEq a b.
Proof.
  revert b; induction a as [|x a IH]; intros [|y b]; simpl; try reflexivity.
  rewrite unit_eqb, IH; reflexivity.
Qed.

Lemma isWhiteSpace_widen (c : ascii) :
  Wide.isWhiteSpace (N_of_ascii c) = isWhiteSpace c.
Proof. destruct c as [[] [] [] [] [] [] [] []]; reflexivity. Qed.

Lemma lowerUnit_widen (c : ascii) :
  Wide.lowerUnit (N_of_ascii c) = N_of_ascii (lowerChar c).
Proof. destruct c as [[] [] [] [] [] [] [] []]; reflexivity. Qed.

Lemma not_sigma (c : ascii) : N.eqb (N_of_ascii c) Wide.capitalSigma = false.
Proof. destruct c as [[] [] [] [] [] [] [] []]; reflexivity. Qed.

Lemma trimStart_widen (s : str) :
  Wide.trimStart (Wide.widen s) = Wide.widen (trimStart s).
Proof.
  induction s as [|c s IH]; simpl; [reflexivity|].
  rewrite isWhiteSpace_widen; destruct (isWhiteSpace c); [exact IH|].
  reflexivity.
Qed.

Lemma trim_widen (s : str) : Wide.trim (Wide.widen s) = Wide.widen (trim s).
Proof.
  unfold Wide.trim, Wide.trimEnd, trim, trimEnd.
  rewrite trimStart_widen.
  unfold Wide.widen at 1; rewrite <- map_rev.
  fold (Wide.widen (rev (trimStart s))).
  rewrite trimStart_widen; unfold Wide.widen; rewrite map_rev; reflexivity.
Qed.

Lemma toLowerCase_widen (s : str) :
  Wide.toLowerCase (Wide.widen s) = Wide.widen (toLowerCase s).
Proof.
  unfold Wide.toLowerCase; generalize false.
  induction s as [|c s IH]; intros after; simpl; [reflexivity|].
  rewrite not_sigma, lowerUnit_widen, IH; reflexivity.
Qed.

Lemma startsWith_widen (s q : str) :
  Wide.startsWith (Wide.widen s) (Wide.widen q) = startsWith s q.
Proof.
  revert s; induction q as [|y q IH]; intros [|x s]; simpl; try reflexivity.
  rewrite unit_eqb, IH; reflexivity.
Qed.

Lemma includes_widen (s q : str) :
  Wide.includes (Wide.widen s) (Wide.widen q) = includes s q.
Proof.
  induction s as [|x s IH].
  - destruct q; reflexivity.
  - cbn [Wide.widen map Wide.includes includes].
    change (N_of_ascii x :: map N_of_ascii s) with (Wide.widen (x :: s)).
    rewrite startsWith_widen.
    change (map N_of_ascii s) with (Wide.widen s); rewrite IH; reflexivity.
Qed.

Lemma fieldIncludes_widen (o : option str) (q : str) :
  Wide.fieldIncludes Wide.toLowerCase (Wide.widenField o) (Wide.widen q)
  = fieldIncludes o q.
Proof.
  destruct o as [s|]; simpl; [|reflexivity].
  rewrite !toLowerCase_widen, includes_widen; reflexivity.
Qed.

Lemma matchesSearch_widen (q : str) (e : Event) :
  Wide.matchesSearch Wide.toLowerCase (Wide.widen q) (widenEvent e)
  = matchesSearch q e.
Proof.
  unfold Wide.matchesSearch, matchesSearch, widenEvent;
    cbn [Wide.summary Wide.description Wide.location].
  rewrite !fieldIncludes_widen, trim_widen.
  change (@nil N) with (Wide.widen []); rewrite strEq_widen; reflexivity.
Qed.

Lemma strictEq_widen (o : option str) (t : str) :
  Wide.strictEq (Wide.widenField o) (Wide.widen t) = strictEq o t.
Proof. destruct o; simpl; [apply strEq_widen | reflexivity]. Qed.

Lemma truthyStr_widen (o : option str) :
  Wide.truthyStr (Wide.widenField o) = truthyStr o.
Proof. destruct o as [[|c s]|]; reflexivity. Qed.

Lemma matchesType_widen (t : str) (e : Event) :
  Wide.matchesType (Wide.widen t) (widenEvent e) = matchesType t e.
Proof.
  unfold Wide.matchesType, matchesType, widenEvent; cbn [Wide.eventType].
  rewrite !strEq_widen, strictEq_widen, truthyStr_widen; reflexivity.
Qed.

(** On events whose strings lie below U+0100 the filter over all code units,
    with the lower-casing of [Wide.toLowerCase], keeps exactly what the
    narrow filter keeps. *)
Lemma keeps_widen (q t : str) (e : Event) :
  Wide.keeps Wide.toLowerCase (Wide.widen q) (Wide.widen t) (widenEvent e)
  = keeps q t e.
Proof.
  unfold Wide.keeps, keeps.
  rewrite matchesSearch_widen, matchesType_widen; reflexivity.
Qed.

Lemma filterEvents_widen (E : list Event) (q t : str) :
  Wide.filterEvents Wide.toLowerCase (map widenEvent E) (Wide.widen q)
    (Wide.widen t)
  = map widenEvent (filterEvents E q t).
Proof.
  unfold Wide.filterEvents, filterEvents.
  induction E as [|e E IH]; simpl; [reflexivity|].
  rewrite keeps_widen; destruct (keeps q t e); simpl; rewrite IH; reflexivity.
Qed.

End NarrowIsWide.

(** ** The exporters *)

Lemma unquoteBody_replaceAll (cell : str) :
  unquoteBody (replaceAll dquote [dquote; dquote] cell ++ [dquote]) = Some cell.
Proof.
  induction cell as [|c cell IH]; [reflexivity|].
  cbn [replaceAll]; destruct (Ascii.eqb c dquote) eqn:E.
  - apply Ascii.eqb_eq in E; subst c.
    change (([dquote; dquote] ++ replaceAll dquote [dquote; dquote] cell)
              ++ [dquote])
      with (dquote :: dquote
              :: (replaceAll dquote [dquote; dquote] cell ++ [dquote])).
    cbn [unquoteBody]; rewrite Ascii.eqb_refl, IH; reflexivity.
  - change (([c] ++ replaceAll dquote [dquote; dquote] cell) ++ [dquote])
      with (c :: (replaceAll dquote [dquote; dquote] cell ++ [dquote])).
    cbn [unquoteBody]; rewrite E, IH; reflexivity.
Qed.

Lemma unquoteCell_csvCell (cell : str) : unquoteCell (csvCell cell) = Some cell.
Proof.
  unfold csvCell; cbn [app unquoteCell]; rewrite Ascii.eqb_refl.
  apply unquoteBody_replaceAll.
Qed.

Lemma join_cons (sep p : str) (l : list str) :
  join sep (p :: l) = p ++ concat (map (fun x => sep ++ x) l).
Proof.
  revert p; induction l as [|x l IH]; intros p.
  - simpl; rewrite app_nil_r; reflexivity.
  - change (join sep (p :: x :: l)) with (p ++ sep ++ join sep (x :: l)).
    rewrite IH; simpl; rewrite <- !app_assoc; reflexivity.
Qed.

Lemma join_nil_concat (l : list str) : join [] l = concat l.
Proof.
  destruct l as [|p l]; [reflexivity|].
  rewrite join_cons; simpl; f_equal.
  induction l as [|x l IH]; simpl; [|rewrite IH]; reflexivity.
Qed.

Lemma orElse_rendersText (o : option str) (fallback : str) :
  rendersText o fallback (orElse o fallback).
Proof.
  split.
  - intros [-> | ->]; reflexivity.
  - intros s -> Hs; destruct s; [congruence | reflexivity].
Qed.

Section ExporterFacts.

Variable format : str -> str -> str.

Lemma dateText_rendersDate (x : option EventDateTime) :
  rendersDate format x (dateText format x).
Proof.
  unfold dateText; repeat split.
  - intros ->; reflexivity.
  - intros dt -> [H1 | H1] [H2 | H2]; simpl; rewrite H1, H2; reflexivity.
  - intros dt d -> H Hd; simpl; rewrite H.
    destruct d; [congruence | reflexivity].
  - intros dt d -> [H1 | H1] H Hd; simpl; rewrite H1, H;
      (destruct d; [congruence | reflexivity]).
Qed.

Lemma csvData_cons (e : Event) (evs : list Event) :
  csvData format (e :: evs) =
  [ orElse (summary e) (lit "Untitled Event"); dateText format (start e);
    dateText format (end_ e); orElse (location e) (lit "No location");
    orElse (eventType e) (lit "Default"); orElse (description e) [] ]
  :: csvData format evs.
Proof. reflexivity. Qed.

Lemma csvData_nth (evs : list Event) (i : nat) (e : Event) :
  nth_error evs i = Some e ->
  nth_error (csvData format evs) i =
  Some [ orElse (summary e) (lit "Untitled Event"); dateText format (start e);
         dateText format (end_ e); orElse (location e) (lit "No location");
         orElse (eventType e) (lit "Default"); orElse (description e) [] ].
Proof.
  intros H; unfold csvData; rewrite nth_error_map, H; reflexivity.
Qed.

Lemma csvContent_shape (evs : list Event) :
  csvContent format evs =
  lit "Title,Start,End,Location,Type,Description"
  ++ concat (map (fun row => [newline] ++ join (lit ",") (map csvCell row))
                 (csvData format evs)).
Proof.
  unfold csvContent; rewrite join_cons, map_map; reflexivity.
Qed.

Lemma pdfRow_tableRow (e : Event) :
  pdfRow format e =
  tableRow [ orElse (summary e) (lit "Untitled Event"); dateText format (start e);
             dateText format (end_ e); orElse (location e) (lit "No location");
             orElse (eventType e) (lit "Default") ].
Proof.
  unfold pdfRow, tableRow, dateText.
  cbn [map concat]; rewrite app_nil_r, <- !app_assoc.
  reflexivity.
Qed.

Lemma pdfDocument_shape (from to : str) :
  exists head foot,
    forall evs : list Event,
      pdfDocument format from to evs
      = head ++ concat (map (pdfRow format) evs) ++ foot.
Proof.
  unfold pdfDocument.
  match goal with
  | |- exists head foot, forall evs,
         ?a ++ ?b ++ ?c ++ ?d ++ ?e ++ _ ++ ?f = _ =>
      exists (a ++ b ++ c ++ d ++ e), f
  end.
  intros evs; rewrite join_nil_concat, <- !app_assoc; reflexivity.
Qed.

End ExporterFacts.

(** C2. The text produced by [exportToCSV] is the header line
    Title,Start,End,Location,Type,Description followed, for each event in list
    order, by a newline and the row of the event: its six cells, each between
    double quotes with its own double quotes doubled (so that unquoting gives
    the cell back), joined by commas. A title, location or type without a
    value renders as Untitled Event, No location, Default; a start or end
    without a value as N/A. For the title made of A, a double quote and B,
    with no location and no type, the title cell is A, two double quotes and
    B between double quotes, and the other two cells are No location and
    Default between double quotes. *)
Theorem C2_exportToCSV (format : str -> str -> str) (evs : list Event)
    (today : str) :
  content (exportToCSV format evs today) =
    lit "Title,Start,End,Location,Type,Description"
    ++ concat (map (fun row => [newline] ++ join (lit ",") (map csvCell row))
                   (csvData format evs))
  /\ ~ In newline (lit "Title,Start,End,Location,Type,Description")
  /\ length (csvData format evs) = length evs
  /\ (forall i e, nth_error evs i = Some e ->
      exists title starts ends place kind descr,
        nth_error (csvData format evs) i
        = Some [title; starts; ends; place; kind; descr]
        /\ join (lit ",") (map csvCell [title; starts; ends; place; kind; descr])
           = csvCell title ++ lit "," ++ csvCell starts ++ lit ","
             ++ csvCell ends ++ lit "," ++ csvCell place ++ lit ","
             ++ csvCell kind ++ lit "," ++ csvCell descr
        /\ rendersText (summary e) (lit "Untitled Event") title
        /\ rendersDate format (start e) starts
        /\ rendersDate format (end_ e) ends
        /\ rendersText (location e) (lit "No location") place
        /\ rendersText (eventType e) (lit "Default") kind
        /\ rendersText (description e) [] descr)
  /\ (forall cell,
        csvCell cell
        = [dquote] ++ replaceAll dquote [dquote; dquote] cell ++ [dquote]
        /\ unquoteCell (csvCell cell) = Some cell)
  /\ (forall e,
        summary e = Some (lit "A" ++ [dquote] ++ lit "B") ->
        location e = None -> eventType e = None ->
        exists title starts ends place kind descr,
          csvData format [e] = [[title; starts; ends; place; kind; descr]]
          /\ csvCell title
             = [dquote] ++ lit "A" ++ [dquote; dquote] ++ lit "B" ++ [dquote]
          /\ csvCell place = [dquote] ++ lit "No location" ++ [dquote]
          /\ csvCell kind = [dquote] ++ lit "Default" ++ [dquote]).
Proof.
  split; [apply csvContent_shape|].
  split.
  { cbv; intros H; repeat (destruct H as [H | H]; [discriminate|]); exact H. }
  split; [unfold csvData; apply length_map|].
  split; [|split].
  - intros i e H; do 6 eexists.
    split; [apply csvData_nth; exact H|].
    split; [reflexivity|].
    repeat split; try apply orElse_rendersText; apply dateText_rendersDate.
  - intros cell; split; [reflexivity | apply unquoteCell_csvCell].
  - intros e Hs Hl Ht; do 6 eexists.
    split; [apply csvData_cons|].
    rewrite Hs, Hl, Ht; repeat split; reflexivity.
Qed.

(** C9. Whenever the print exporter writes a document, that document is a
    fixed head, one table row per event in list order, and a fixed foot; it
    does write one when the popup opens and both date inputs are filled (with
    a date input cleared the heading cannot be formatted and nothing is
    written). The row of an event holds five cells, and these are the first
    five cells (title, start, end, location, type) of the event's CSV row
    before quoting: the same fallbacks and the same date rendering, the
    description left out. *)
Theorem C9_pdf_rows_match_csv (format : str -> str -> str)
    (startDate endDate : str) :
  exists head foot,
    forall (printWindow : option unit) (evs : list Event),
      (forall html,
         exportToPDF format printWindow evs startDate endDate = Printed html ->
         html = head
                ++ concat (map (fun row => tableRow (firstn 5 row))
                               (csvData format evs))
                ++ foot)
      /\ (printWindow <> None -> startDate <> [] -> endDate <> [] ->
          exportToPDF format printWindow evs startDate endDate
          = Printed (head
                     ++ concat (map (fun row => tableRow (firstn 5 row))
                                    (csvData format evs))
                     ++ foot))
      /\ (startDate = [] \/ endDate = [] ->
          forall html,
            exportToPDF format printWindow evs startDate endDate
            <> Printed html)
      /\ map (pdfRow format) evs
         = map (fun row => tableRow (firstn 5 row)) (csvData format evs)
      /\ (forall i e, nth_error evs i = Some e ->
          exists title starts ends place kind descr,
            nth_error (csvData format evs) i
            = Some [title; starts; ends; place; kind; descr]
            /\ pdfRow format e = tableRow [title; starts; ends; place; kind]
            /\ map unquoteCell
                   (firstn 5 (map csvCell
                                  [title; starts; ends; place; kind; descr]))
               = map Some [title; starts; ends; place; kind]).
Proof.
  destruct (pdfDocument_shape format (format startDate (lit "PP"))
              (format endDate (lit "PP"))) as (head & foot & D).
  exists head, foot; intros printWindow evs.
  assert (R : map (pdfRow format) evs
              = map (fun row => tableRow (firstn 5 row)) (csvData format evs)).
  { unfold csvData; rewrite map_map; apply map_ext; intros e.
    rewrite pdfRow_tableRow; reflexivity. }
  rewrite <- R, <- D.
  split; [|split; [|split; [|split; [reflexivity|]]]].
  - unfold exportToPDF, pdfHtml, formatInput.
    destruct printWindow; [|discriminate].
    destruct startDate; [discriminate|].
    destruct endDate; [discriminate|].
    intros html [= <-]; reflexivity.
  - intros Hw Hs He; unfold exportToPDF, pdfHtml, formatInput.
    destruct printWindow; [|congruence].
    destruct startDate; [congruence|].
    destruct endDate; [congruence|]; reflexivity.
  - intros H html; unfold exportToPDF, pdfHtml, formatInput.
    destruct printWindow; [|discriminate].
    destruct H as [-> | ->]; [discriminate|].
    destruct startDate; discriminate.
  - intros i e H; do 6 eexists.
    split; [apply csvData_nth; exact H|].
    split; [apply pdfRow_tableRow|].
    cbn [map firstn]; rewrite !unquoteCell_csvCell; reflexivity.
Qed.

(** ** Empty strings and absent values *)

Lemma orElse_blank (o : option str) (fallback : str) :
  orElse (blankToAbsent o) fallback = orElse o fallback.
Proof. destruct o as [[|c s]|]; reflexivity. Qed.

Lemma truthyStr_blank (o : option str) :
  truthyStr (blankToAbsent o) = truthyStr o.
Proof. destruct o as [[|c s]|]; reflexivity. Qed.

Lemma strictEq_blank (o : option str) (t : str) :
  t <> [] -> strictEq (blankToAbsent o) t = strictEq o t.
Proof.
  intros Ht; destruct o as [[|c s]|]; try reflexivity.
  destruct t; [congruence | reflexivity].
Qed.

Lemma fieldIncludes_blank (o : option str) (c : ascii) (q : str) :
  truthy (fieldIncludes (blankToAbsent o) (c :: q))
  = truthy (fieldIncludes o (c :: q)).
Proof. destruct o as [[|d s]|]; reflexivity. Qed.

Lemma matchesSearch_blank (q : str) (e : Event) :
  truthy (matchesSearch q (withoutBlanks e)) = truthy (matchesSearch q e).
Proof.
  destruct q as [|c q]; [reflexivity|].
  unfold matchesSearch; rewrite !truthy_jsOr.
  cbn [summary description location withoutBlanks].
  rewrite !fieldIncludes_blank; reflexivity.
Qed.

Lemma matchesType_blank (t : str) (e : Event) :
  t <> [] -> matchesType t (withoutBlanks e) = matchesType t e.
Proof.
  intros Ht; unfold matchesType; cbn [eventType withoutBlanks].
  rewrite truthyStr_blank, strictEq_blank by exact Ht; reflexivity.
Qed.

Lemma eventTypes_nonempty (t : str) : In t Calendar.eventTypes -> t <> [].
Proof.
  unfold Calendar.eventTypes; simpl.
  intros [<- | [<- | [<- | [<- | [<- | []]]]]]; discriminate.
Qed.

(** C10. A title, description, location or type that is the empty string is
    treated as an absent one. Under every selector of the component (all of
    them are non-empty) the filter keeps an event exactly when it keeps the
    event with its empty fields removed, and both exporters produce the same
    row for the two. An event whose type is the empty string passes the type
    test under the selector default and fails it under every other selector
    apart from all. An empty title, location or type is exported as Untitled
    Event, No location or Default, and a description without a value gives an
    empty CSV cell, that is two double quotes. *)
Theorem C10_empty_string_as_absent (format : str -> str -> str) (e : Event)
    (q t : str) :
  (forall s, In s Calendar.eventTypes -> s <> [])
  /\ (t <> [] -> keeps q t (withoutBlanks e) = keeps q t e)
  /\ (eventType e = Some [] ->
      matchesType (lit "default") e = true
      /\ (t <> [] -> t <> lit "all" -> t <> lit "default" ->
          matchesType t e = false))
  /\ csvData format [withoutBlanks e] = csvData format [e]
  /\ pdfRow format (withoutBlanks e) = pdfRow format e
  /\ (exists title starts ends place kind descr,
        csvData format [e] = [[title; starts; ends; place; kind; descr]]
        /\ pdfRow format e = tableRow [title; starts; ends; place; kind]
        /\ (summary e = Some [] -> title = lit "Untitled Event")
        /\ (location e = Some [] -> place = lit "No location")
        /\ (eventType e = Some [] -> kind = lit "Default")
        /\ (noValue (description e) ->
            descr = [] /\ csvCell descr = [dquote; dquote])).
Proof.
  split; [exact eventTypes_nonempty|].
  split.
  { intros Ht; rewrite !keeps_eq, matchesSearch_blank, matchesType_blank;
      [reflexivity | exact Ht]. }
  split.
  { intros He; split.
    - unfold matchesType; rewrite He; reflexivity.
    - intros Ht Ha Hd; apply not_true_iff_false; intros H.
      apply matchesType_iff in H; [|exact Ha].
      destruct H as [H | [_ H]]; congruence. }
  split.
  { rewrite !csvData_cons; cbn [summary description location eventType start
                                 end_ withoutBlanks].
    rewrite !orElse_blank; reflexivity. }
  split.
  { rewrite !pdfRow_tableRow; cbn [summary description location eventType
                                   start end_ withoutBlanks].
    rewrite !orElse_blank; reflexivity. }
  do 6 eexists.
  split; [apply csvData_cons|].
  split; [apply pdfRow_tableRow|].
  repeat split.
  - intros ->; reflexivity.
  - intros ->; reflexivity.
  - intros ->; reflexivity.
  - destruct H as [-> | ->]; reflexivity.
  - destruct H as [-> | ->]; reflexivity.
Qed.

(** ** The fetcher *)

Module FetcherFacts.

Import Fetcher.

Lemma requests_app (l1 l2 : list Effect) :
  requests (l1 ++ l2) = requests l1 ++ requests l2.
Proof.
  induction l1 as [|[r | label] l1 IH]; simpl; [|rewrite IH|]; auto.
Qed.

Lemma truthyStr_true_iff (o : option str) :
  truthyStr o = true <-> exists c s, o = Some (c :: s).
Proof.
  destruct o as [[|c s]|]; simpl; split; try discriminate; eauto;
    intros (c' & s' & H); discriminate.
Qed.

Section WithClock.

Variable toISOString : Z -> str.

(** C7. When the token store holds no token, [getCalendarEvents] throws the
    error No access token available, whatever the start and end dates, and
    the run issues no request: its only effect is the log line of the catch
    block, and the clock is not read. *)
Theorem C7_no_token_no_request (env : Env) (w : World)
    (startDate endDate : option Date) :
  noValue (accessToken env) ->
  fst (getCalendarEvents toISOString startDate endDate env w)
  = Thrown (mkError (lit "No access token available"))
  /\ requests (effects (snd (getCalendarEvents toISOString startDate endDate
                               env w)))
     = requests (effects w)
  /\ effects (snd (getCalendarEvents toISOString startDate endDate env w))
     = effects w ++ [ConsoleError (lit "Error fetching calendar events:")]
  /\ ticks (snd (getCalendarEvents toISOString startDate endDate env w))
     = ticks w.
Proof.
  intros H; apply truthyStr_false_iff in H.
  unfold getCalendarEvents, tryCatch, bind, getAccessToken; cbn beta iota.
  rewrite H; cbn.
  repeat split; try reflexivity.
  rewrite requests_app; simpl; apply app_nil_r.
Qed.

(** C8. With a token present, a call of [getCalendarEvents] issues exactly one
    request, whatever the endpoint answers. Its parameters are, in order:
    timeMin, the given start instant or the clock reading when unspecified;
    timeMax, the given end instant or the clock reading plus thirty days when
    unspecified; maxResults 100; singleEvents true; orderBy startTime. The
    request goes to the primary calendar's events endpoint with the token as
    bearer. *)
Theorem C8_single_request (env : Env) (w : World)
    (startDate endDate : option Date) :
  truthyStr (accessToken env) = true ->
  exists request,
    requests (effects (snd (getCalendarEvents toISOString startDate endDate
                              env w)))
    = requests (effects w) ++ [request]
    /\ searchParams request
       = [ (lit "timeMin", expectedTimeMin toISOString env w startDate);
           (lit "timeMax", expectedTimeMax toISOString env w startDate endDate);
           (lit "maxResults", lit "100");
           (lit "singleEvents", lit "true");
           (lit "orderBy", lit "startTime") ]
    /\ url request
       = lit "https://www.googleapis.com/calendar/v3/calendars/primary/events"
    /\ requestHeaders request
       = [ (lit "Authorization",
            lit "Bearer " ++ templateText (accessToken env));
           (lit "Accept", lit "application/json") ].
Proof.
  intros H.
  unfold getCalendarEvents, tryCatch, bind, getAccessToken; cbn beta iota.
  rewrite H; cbn [negb].
  exists {| url := lit "https://www.googleapis.com/calendar/v3/calendars/primary/events";
            searchParams :=
              [ (lit "timeMin", expectedTimeMin toISOString env w startDate);
                (lit "timeMax", expectedTimeMax toISOString env w startDate endDate);
                (lit "maxResults", lit "100");
                (lit "singleEvents", lit "true");
                (lit "orderBy", lit "startTime") ];
            requestHeaders :=
              [ (lit "Authorization",
                 lit "Bearer " ++ templateText (accessToken env));
                (lit "Accept", lit "application/json") ] |}.
  split; [|repeat split].
  destruct startDate as [s|], endDate as [e|];
    cbn [ret bind dateNow fetch emit ticks effects];
    (match goal with
     | |- context [network env ?r] =>
         destruct (network env r) as [err | [[|] [jerr | body]]]
     end;
     cbn; rewrite ?requests_app; cbn; rewrite ?app_nil_r; reflexivity).
Qed.

End WithClock.

End FetcherFacts.

(** ** The component *)

Module CalendarFacts.

Import Fetcher Calendar.

Lemma filter_selection {A : Type} (p : A -> bool) (l : list A) :
  OrderedSelection (filter p l) l.
Proof.
  induction l as [|a l IH]; simpl; [constructor|].
  destruct (p a); constructor; exact IH.
Qed.

Lemma filterEvents_exactly (E : list Event) (q t : str) :
  ExactlyTheMatching (filterEvents E q t) E q t.
Proof.
  unfold ExactlyTheMatching, filterEvents; split; [apply filter_selection|].
  split; [|reflexivity].
  intros e H; apply filter_In in H; tauto.
Qed.

Lemma reactiveLoad_fields (c : Component) :
  events (reactiveLoad c) = events c
  /\ filteredEvents (reactiveLoad c) = filteredEvents c
  /\ searchQuery (reactiveLoad c) = searchQuery c
  /\ selectedType (reactiveLoad c) = selectedType c.
Proof.
  unfold reactiveLoad.
  destruct (truthyStr (Some (startDate c)) || truthyStr (Some (endDate c)));
    repeat split.
Qed.

(** The case analysis of [step]: on the input, then on whether the input
    assigns the values already held. *)
Ltac step_cases i :=
  destruct i as [q | t | d | d | today | [evs | e]]; cbn [step];
  try match goal with
      | |- context [if ?b then _ else _] => destruct b eqn:Same
      end.

Ltac load_fields :=
  match goal with
  | |- context [reactiveLoad ?x] =>
      let E1 := fresh in
      let E2 := fresh in
      let E3 := fresh in
      let E4 := fresh in
      destruct (reactiveLoad_fields x) as (E1 & E2 & E3 & E4);
      rewrite ?E1, ?E2, ?E3, ?E4
  end.

Lemma step_consistent (c : Component) (i : Input) :
  consistent c -> consistent (step c i).
Proof.
  unfold consistent; intros H.
  step_cases i; try exact H; try reflexivity; load_fields; exact H.
Qed.

Lemma step_events (c : Component) (i : Input) :
  events (step c i) = lastDelivered [i] (events c).
Proof.
  step_cases i; cbn [lastDelivered]; try reflexivity;
    load_fields; reflexivity.
Qed.

Lemma step_searchQuery (c : Component) (i : Input) :
  searchQuery (step c i) = lastQuery [i] (searchQuery c).
Proof.
  step_cases i; cbn [lastQuery]; try reflexivity;
    try (load_fields; reflexivity).
  apply strEq_true_iff in Same; congruence.
Qed.

Lemma step_selectedType (c : Component) (i : Input) :
  selectedType (step c i) = lastType [i] (selectedType c).
Proof.
  step_cases i; cbn [lastType]; try reflexivity;
    try (load_fields; reflexivity).
  apply strEq_true_iff in Same; congruence.
Qed.

Lemma lastDelivered_cons (i : Input) (l : list Input) (sofar : list Event) :
  lastDelivered (i :: l) sofar = lastDelivered l (lastDelivered [i] sofar).
Proof. destruct i as [| | | | | [|]]; reflexivity. Qed.

Lemma lastQuery_cons (i : Input) (l : list Input) (sofar : str) :
  lastQuery (i :: l) sofar = lastQuery l (lastQuery [i] sofar).
Proof. destruct i; reflexivity. Qed.

Lemma lastType_cons (i : Input) (l : list Input) (sofar : str) :
  lastType (i :: l) sofar = lastType l (lastType [i] sofar).
Proof. destruct i; reflexivity. Qed.

Lemma run_spec (inputs : list Input) (c : Component) :
  consistent c ->
  consistent (run c inputs)
  /\ events (run c inputs) = lastDelivered inputs (events c)
  /\ searchQuery (run c inputs) = lastQuery inputs (searchQuery c)
  /\ selectedType (run c inputs) = lastType inputs (selectedType c).
Proof.
  revert c; induction inputs as [|i inputs IH]; intros c H.
  - repeat split; exact H.
  - cbn [run fold_left].
    destruct (IH (step c i) (step_consistent i H)) as (K & E & Q & T).
    fold (run (step c i) inputs).
    rewrite lastDelivered_cons, lastQuery_cons, lastType_cons,
      <- step_events, <- step_searchQuery, <- step_selectedType.
    auto.
Qed.

Lemma mounted_consistent (d1 d2 : str) : consistent (mounted d1 d2).
Proof.
  unfold consistent, mounted, loadEventsBegin.
  cbn [events filteredEvents searchQuery selectedType].
  destruct (reactiveLoad_fields (reactiveFilter (initial d1 d2)))
    as (-> & -> & -> & ->); reflexivity.
Qed.

Lemma mounted_fields (d1 d2 : str) :
  events (mounted d1 d2) = []
  /\ searchQuery (mounted d1 d2) = []
  /\ selectedType (mounted d1 d2) = lit "all".
Proof.
  unfold mounted, loadEventsBegin.
  cbn [events filteredEvents searchQuery selectedType].
  destruct (reactiveLoad_fields (reactiveFilter (initial d1 d2)))
    as (-> & _ & -> & ->); repeat split.
Qed.

(** C1. In every state the component reaches from its mounted state, by any
    sequence of search edits, type selections, date edits and settled
    fetches, [events] is the list delivered by the last successful fetch
    (empty before the first one), the criteria are the last ones entered, and
    [filteredEvents] is exactly the events of that list that match the
    current criteria, in its order. A failed fetch changes neither [events]
    nor [filteredEvents]; a successful fetch replaces [events] by the
    delivered list and leaves in [filteredEvents] only events of that list. *)
Theorem C1_visible_is_filter_of_last_fetch (startDate0 endDate0 : str)
    (inputs : list Input) :
  let c := run (mounted startDate0 endDate0) inputs in
  events c = lastDelivered inputs []
  /\ searchQuery c = lastQuery inputs []
  /\ selectedType c = lastType inputs (lit "all")
  /\ ExactlyTheMatching (filteredEvents c) (lastDelivered inputs [])
       (searchQuery c) (selectedType c)
  /\ (forall e,
        events (step c (FetchSettled (Thrown e))) = events c
        /\ filteredEvents (step c (FetchSettled (Thrown e)))
           = filteredEvents c)
  /\ (forall evs,
        events (step c (FetchSettled (Returned evs))) = evs
        /\ ExactlyTheMatching
             (filteredEvents (step c (FetchSettled (Returned evs)))) evs
             (searchQuery c) (selectedType c)
        /\ (forall x,
              In x (filteredEvents (step c (FetchSettled (Returned evs)))) ->
              In x evs)).
Proof.
  intros c.
  destruct (run_spec inputs (mounted_consistent startDate0 endDate0))
    as (K & E & Q & T).
  destruct (mounted_fields startDate0 endDate0) as (E0 & Q0 & T0).
  rewrite E0 in E; rewrite Q0 in Q; rewrite T0 in T.
  fold c in K, E, Q, T.
  split; [exact E|]; split; [exact Q|]; split; [exact T|].
  split; [rewrite K, E; apply filterEvents_exactly|].
  split; [intros e; split; reflexivity|].
  intros evs; split; [reflexivity|].
  split; [apply filterEvents_exactly|].
  intros x Hx; cbn in Hx; apply in_filterEvents in Hx; tauto.
Qed.

End CalendarFacts.

(** ** Concrete runs *)

Module SampleRuns.

Import Fetcher Calendar Samples.

Example trim_sample : trim (lit "  a b ") = lit "a b".
Proof. reflexivity. Qed.

Example lower_sample : toLowerCase (lit "Team STANDUP") = lit "team standup".
Proof. reflexivity. Qed.

Example filter_by_text :
  filterEvents [standup; birthday; quoted] (lit "STAND") (lit "all")
  = [standup].
Proof. reflexivity. Qed.

Example filter_by_type_default :
  filterEvents [standup; birthday; quoted] [] (lit "default")
  = [standup; quoted].
Proof. reflexivity. Qed.

Example filter_by_type_birthday :
  filterEvents [standup; birthday; quoted] (lit " ") (lit "birthday")
  = [birthday].
Proof. reflexivity. Qed.

Example csv_sample :
  csvContent sampleFormat [birthday]
  = lit "Title,Start,End,Location,Type,Description" ++ [newline]
    ++ [dquote] ++ lit "Untitled Event" ++ [dquote] ++ lit ","
    ++ [dquote] ++ lit "PP:2024-01-15" ++ [dquote] ++ lit ","
    ++ [dquote] ++ lit "N/A" ++ [dquote] ++ lit ","
    ++ [dquote] ++ lit "Home" ++ [dquote] ++ lit ","
    ++ [dquote] ++ lit "birthday" ++ [dquote] ++ lit ","
    ++ [dquote; dquote].
Proof. reflexivity. Qed.

Example fetch_online :
  getCalendarEvents sampleISO None None online fresh
  = (Returned [standup; birthday],
     {| ticks := 2;
        effects :=
          [Fetch {| url := lit "https://www.googleapis.com/calendar/v3/calendars/primary/events";
                    searchParams :=
                      [ (lit "timeMin", lit "early");
                        (lit "timeMax", lit "late");
                        (lit "maxResults", lit "100");
                        (lit "singleEvents", lit "true");
                        (lit "orderBy", lit "startTime") ];
                    requestHeaders :=
                      [ (lit "Authorization", lit "Bearer ya29.token");
                        (lit "Accept", lit "application/json") ] |}] |}).
Proof. reflexivity. Qed.

Example component_sample :
  filteredEvents
    (run (mounted (lit "2024-01-01") (lit "2024-01-31"))
         [ FetchSettled (Returned [quoted]);
           EditSearchQuery (lit "home");
           FetchSettled (Thrown (mkError (lit "No access token available")));
           FetchSettled (Returned [standup; birthday]) ])
  = [birthday].
Proof. reflexivity. Qed.

End SampleRuns.

(** ** Instances of the conditional properties *)

Lemma C7_witness :
  noValue (Fetcher.accessToken Samples.offline)
  /\ fst (Fetcher.getCalendarEvents Samples.sampleISO None None
            Samples.offline Samples.fresh)
     = Fetcher.Thrown (Fetcher.mkError (lit "No access token available"))
  /\ Fetcher.requests
       (Fetcher.effects
          (snd (Fetcher.getCalendarEvents Samples.sampleISO None None
                  Samples.offline Samples.fresh)))
     = [].
Proof.
  split; [left; reflexivity|].
  destruct (FetcherFacts.C7_no_token_no_request Samples.sampleISO
              Samples.offline Samples.fresh None None (or_introl eq_refl))
    as (R & Q & _).
  split; [exact R | exact Q].
Defined.

Lemma C8_witness :
  truthyStr (Fetcher.accessToken Samples.online) = true
  /\ exists request,
       Fetcher.requests
         (Fetcher.effects
            (snd (Fetcher.getCalendarEvents Samples.sampleISO None None
                    Samples.online Samples.fresh)))
       = [request]
       /\ Fetcher.searchParams request
          = [ (lit "timeMin", lit "early");
              (lit "timeMax", lit "late");
              (lit "maxResults", lit "100");
              (lit "singleEvents", lit "true");
              (lit "orderBy", lit "startTime") ].
Proof.
  split; [reflexivity|].
  destruct (FetcherFacts.C8_single_request Samples.sampleISO
              Samples.online Samples.fresh None None eq_refl)
    as (request & R & P & _).
  exists request; split; [exact R | exact P].
Defined.

(** * Further properties *)

(** ** The outcomes of [getCalendarEvents] *)

Module FetcherRuns.

Import Fetcher.

Lemma consoleErrors_app (l1 l2 : list Effect) :
  consoleErrors (l1 ++ l2) = consoleErrors l1 ++ consoleErrors l2.
Proof.
  induction l1 as [|[r | label] l1 IH]; simpl; [| |rewrite IH]; auto.
Qed.

Lemma requests_snoc (l1 l2 : list Effect) :
  requests (l1 ++ l2) = requests l1 ++ requests l2.
Proof.
  induction l1 as [|[r | label] l1 IH]; simpl; [|rewrite IH|]; auto.
Qed.

Lemma requests_console (labels : list str) :
  requests (map ConsoleError labels) = [].
Proof. induction labels; simpl; auto. Qed.

Lemma consoleErrors_console (labels : list str) :
  consoleErrors (map ConsoleError labels) = labels.
Proof. induction labels as [|l labels IH]; simpl; [|rewrite IH]; auto. Qed.

Lemma world_eq (t1 t2 : nat) (e1 e2 : list Effect) :
  t1 = t2 -> e1 = e2 ->
  {| ticks := t1; effects := e1 |} = {| ticks := t2; effects := e2 |}.
Proof. intros -> ->; reflexivity. Qed.

Section Runs.

Variable toISOString : Z -> str.

(** Without a token: the error of the guard, logged by the catch block. *)
Lemma run_without_token (env : Env) (w : World)
    (startDate endDate : option Date) :
  truthyStr (accessToken env) = false ->
  getCalendarEvents toISOString startDate endDate env w
  = (Thrown (mkError (lit "No access token available")),
     logged w [lit "Error fetching calendar events:"]).
Proof.
  intros H.
  unfold getCalendarEvents, tryCatch, bind, getAccessToken; cbn beta iota.
  rewrite H; reflexivity.
Qed.

(** With a token: the run, case by case on what the endpoint answers. *)
Lemma run_with_token (env : Env) (w : World)
    (startDate endDate : option Date) :
  truthyStr (accessToken env) = true ->
  getCalendarEvents toISOString startDate endDate env w
  = let w1 := requested toISOString env w startDate endDate in
    match network env (requestOf toISOString env w startDate endDate) with
    | inl err =>
        (Thrown err, logged w1 [lit "Error fetching calendar events:"])
    | inr resp =>
        match json resp with
        | inl err =>
            (Thrown err, logged w1 [lit "Error fetching calendar events:"])
        | inr body =>
            if ok resp then (Returned (itemsOrEmpty body), w1)
            else
              (Thrown (mkError (orElse (errorMessage body)
                                  (lit "Failed to fetch calendar events"))),
               logged w1 [lit "Calendar API Error:";
                          lit "Error fetching calendar events:"])
        end
    end.
Proof.
  intros H.
  unfold getCalendarEvents, tryCatch, bind, getAccessToken; cbn beta iota.
  rewrite H; cbn [negb].
  unfold requested, logged, itemsOrEmpty; unfold requestOf.
  destruct startDate as [s|], endDate as [e|];
    cbn [ret bind dateNow fetch emit ticks effects unspecified
         expectedTimeMin expectedTimeMax];
    unfold throw, ret, bind, emit; cbn;
    (match goal with
     | |- context [network env ?r] =>
         destruct (network env r) as [err | [[|] [jerr | body]]]
     end;
     (cbn; unfold throw, ret, bind, emit; cbn; apply f_equal; apply world_eq;
      [lia | rewrite <- ?app_assoc; reflexivity])).
Qed.

(** X1. On a success response whose body parses, the call returns the
    [items] of the body, the empty list when the body has none; it has issued
    its one request and written nothing to the console. *)
Theorem fetch_success (env : Env) (w : World) (startDate endDate : option Date)
    (resp : Response) (body : Body) :
  truthyStr (accessToken env) = true ->
  network env (requestOf toISOString env w startDate endDate) = inr resp ->
  ok resp = true ->
  json resp = inr body ->
  let run := getCalendarEvents toISOString startDate endDate env w in
  fst run = Returned (itemsOrEmpty body)
  /\ (items body = None -> fst run = Returned [])
  /\ (forall l, items body = Some l -> fst run = Returned l)
  /\ requests (effects (snd run))
     = requests (effects w)
       ++ [requestOf toISOString env w startDate endDate]
  /\ consoleErrors (effects (snd run)) = consoleErrors (effects w).
Proof.
  intros Ht Hn Hok Hj run; subst run.
  rewrite (run_with_token env w startDate endDate Ht); cbv zeta.
  rewrite Hn, Hj, Hok; cbn [fst snd].
  unfold itemsOrEmpty, requested; cbn [effects].
  rewrite requests_snoc, consoleErrors_app; cbn [requests consoleErrors].
  rewrite app_nil_r.
  repeat split; [intros -> | intros l ->]; reflexivity.
Qed.

(** X2. On a non-success response whose body parses, the call throws an error
    whose message is the endpoint's [error.message] when that is a non-empty
    string and Failed to fetch calendar events otherwise; the message is
    never empty. Nothing is returned, one request was issued, and the console
    got the two lines of the error path and of the catch block. *)
Theorem fetch_remote_error (env : Env) (w : World)
    (startDate endDate : option Date) (resp : Response) (body : Body) :
  truthyStr (accessToken env) = true ->
  network env (requestOf toISOString env w startDate endDate) = inr resp ->
  ok resp = false ->
  json resp = inr body ->
  let run := getCalendarEvents toISOString startDate endDate env w in
  exists text,
    fst run = Thrown (mkError text)
    /\ text <> []
    /\ (forall m, errorMessage body = Some m -> m <> [] -> text = m)
    /\ (noValue (errorMessage body) ->
        text = lit "Failed to fetch calendar events")
    /\ requests (effects (snd run))
       = requests (effects w)
         ++ [requestOf toISOString env w startDate endDate]
    /\ consoleErrors (effects (snd run))
       = consoleErrors (effects w)
         ++ [lit "Calendar API Error:"; lit "Error fetching calendar events:"].
Proof.
  intros Ht Hn Hok Hj run; subst run.
  rewrite (run_with_token env w startDate endDate Ht); cbv zeta.
  rewrite Hn, Hj, Hok; cbn [fst snd].
  exists (orElse (errorMessage body) (lit "Failed to fetch calendar events")).
  split; [reflexivity|].
  split; [destruct (errorMessage body) as [[|c s]|]; discriminate|].
  split; [intros m -> Hm; destruct m; [congruence | reflexivity]|].
  split; [intros [-> | ->]; reflexivity|].
  unfold logged, requested; cbn [effects ticks map].
  rewrite !requests_snoc, !consoleErrors_app; cbn [requests consoleErrors].
  rewrite !app_nil_r; split; reflexivity.
Qed.

(** X3. An error that is not of the call's own making passes through
    unchanged: when [fetch] rejects, or when the body of the response cannot
    be parsed, the call throws that very error, after its one request and one
    console line of the catch block. *)
Theorem fetch_error_passes_through (env : Env) (w : World)
    (startDate endDate : option Date) (err : JsError) :
  truthyStr (accessToken env) = true ->
  network env (requestOf toISOString env w startDate endDate) = inl err
  \/ (exists resp,
        network env (requestOf toISOString env w startDate endDate) = inr resp
        /\ json resp = inl err) ->
  let run := getCalendarEvents toISOString startDate endDate env w in
  fst run = Thrown err
  /\ requests (effects (snd run))
     = requests (effects w)
       ++ [requestOf toISOString env w startDate endDate]
  /\ consoleErrors (effects (snd run))
     = consoleErrors (effects w) ++ [lit "Error fetching calendar events:"].
Proof.
  intros Ht Hn run; subst run.
  rewrite (run_with_token env w startDate endDate Ht); cbv zeta.
  destruct Hn as [Hn | (resp & Hn & Hj)]; rewrite Hn; [|rewrite Hj];
    cbn [fst snd]; unfold logged, requested; cbn [effects ticks map];
    rewrite !requests_snoc, !consoleErrors_app; cbn [requests consoleErrors];
    rewrite !app_nil_r; repeat split; reflexivity.
Qed.

(** X4. Events are returned only from a success response: whenever the call
    returns a list, a token was present, the endpoint answered the request
    with a success status and a body that parses, and the list is the
    [items] of that body (or empty); nothing was written to the console.
    Whenever the call throws, the last console line is the one of the catch
    block. *)
Theorem fetch_returns_only_on_success (env : Env) (w : World)
    (startDate endDate : option Date) :
  let run := getCalendarEvents toISOString startDate endDate env w in
  (forall l, fst run = Returned l ->
     truthyStr (accessToken env) = true
     /\ consoleErrors (effects (snd run)) = consoleErrors (effects w)
     /\ exists resp body,
          network env (requestOf toISOString env w startDate endDate)
          = inr resp
          /\ ok resp = true /\ json resp = inr body
          /\ l = itemsOrEmpty body)
  /\ (forall err, fst run = Thrown err ->
      exists lines,
        consoleErrors (effects (snd run))
        = consoleErrors (effects w) ++ lines
          ++ [lit "Error fetching calendar events:"]).
Proof.
  intros run; subst run.
  destruct (truthyStr (accessToken env)) eqn:Ht.
  - rewrite (run_with_token env w startDate endDate Ht); cbv zeta.
    destruct (network env (requestOf toISOString env w startDate endDate))
      as [e | resp] eqn:Hn;
      [|destruct (json resp) as [e | body] eqn:Hj;
        [|destruct (ok resp) eqn:Hok]];
      cbn [fst snd]; unfold logged, requested; cbn [effects ticks map];
      rewrite ?consoleErrors_app; cbn [consoleErrors]; rewrite ?app_nil_r;
      split; try discriminate.
    + intros _ _; exists []; reflexivity.
    + intros _ _; exists []; reflexivity.
    + intros l [= <-]; split; [reflexivity|]; split; [reflexivity|].
      exists resp, body; auto.
    + intros _ _; exists [lit "Calendar API Error:"]; reflexivity.
  - rewrite (run_without_token env w startDate endDate Ht); cbn [fst snd].
    unfold logged; cbn [effects map]; rewrite consoleErrors_app.
    split; [discriminate|].
    intros _ _; exists []; reflexivity.
Qed.

(** X5. The clock is read once for each bound left unspecified, and only once
    the token guard has passed; a call given both bounds never reads it, so
    its outcome and effects are the same under any clock. *)
Theorem fetch_clock_readings (env : Env) (w : World)
    (startDate endDate : option Date) :
  ticks (snd (getCalendarEvents toISOString startDate endDate env w))
  = ticks w
    + (if truthyStr (accessToken env)
       then unspecified startDate + unspecified endDate else 0)
  /\ (forall (s e : Date) (otherClock : nat -> Z),
        getCalendarEvents toISOString (Some s) (Some e)
          {| accessToken := accessToken env;
             clock := otherClock;
             network := network env |} w
        = getCalendarEvents toISOString (Some s) (Some e) env w).
Proof.
  split.
  - destruct (truthyStr (accessToken env)) eqn:Ht.
    + rewrite (run_with_token env w startDate endDate Ht); cbv zeta.
      destruct (network env (requestOf toISOString env w startDate endDate))
        as [e | resp];
        [|destruct (json resp) as [e | body]; [|destruct (ok resp)]];
        cbn [snd]; unfold logged, requested; cbn [ticks]; lia.
    + rewrite (run_without_token env w startDate endDate Ht); cbn; lia.
  - intros s e otherClock.
    destruct (truthyStr (accessToken env)) eqn:Ht.
    + rewrite !run_with_token by exact Ht; reflexivity.
    + rewrite !run_without_token by exact Ht; reflexivity.
Qed.

End Runs.

End FetcherRuns.

Lemma fetch_success_witness :
  fst (Fetcher.getCalendarEvents Samples.sampleISO None None Samples.online
         Samples.fresh)
  = Fetcher.Returned [Samples.standup; Samples.birthday].
Proof.
  exact (proj1 (@FetcherRuns.fetch_success Samples.sampleISO Samples.online
                  Samples.fresh None None MoreSamples.okResponse
                  MoreSamples.okBody eq_refl eq_refl eq_refl eq_refl)).
Defined.

Lemma fetch_remote_error_witness :
  exists text,
    fst (Fetcher.getCalendarEvents Samples.sampleISO None None
           MoreSamples.refused Samples.fresh)
    = Fetcher.Thrown (Fetcher.mkError text)
    /\ text <> [].
Proof.
  destruct (@FetcherRuns.fetch_remote_error Samples.sampleISO
              MoreSamples.refused Samples.fresh None None
              MoreSamples.quotaResponse MoreSamples.quotaBody
              eq_refl eq_refl eq_refl eq_refl)
    as (text & R & N & _).
  exists text; split; [exact R | exact N].
Defined.

Lemma fetch_error_passes_through_witness :
  fst (Fetcher.getCalendarEvents Samples.sampleISO
         (Some MoreSamples.january) None MoreSamples.unreachable
         Samples.fresh)
  = Fetcher.Thrown (Fetcher.mkError (lit "Failed to fetch")).
Proof.
  exact (proj1 (@FetcherRuns.fetch_error_passes_through Samples.sampleISO
                  MoreSamples.unreachable Samples.fresh
                  (Some MoreSamples.january) None
                  (Fetcher.mkError (lit "Failed to fetch")) eq_refl
                  (or_introl eq_refl))).
Defined.

(** ** Sign-in, sign-out and the token *)

Module PageFacts.

Import Fetcher Page.

Lemma truthy_not_empty (o : option str) :
  truthyStr o = true -> o <> Some [] /\ o <> None.
Proof. destruct o as [[|c s]|]; simpl; intros H; split; congruence. Qed.

Lemma handleLoginSettle_tokens (r : SignIn) (p : PageState) :
  accessTokenStore (handleLoginSettle r p)
  = (if truthyStr (signInToken r) then signInToken r else None)
  /\ storedToken (handleLoginSettle r p)
     = (if truthyStr (signInToken r) then signInToken r else None).
Proof.
  destruct r as [code | [[token] |]]; simpl; try (split; reflexivity).
  destruct (truthyStr token); split; reflexivity.
Qed.

Lemma pageStep_invariant (p : PageState) (i : PageInput) :
  accessTokenStore p = storedToken p /\ accessTokenStore p <> Some [] ->
  accessTokenStore (pageStep p i) = storedToken (pageStep p i)
  /\ accessTokenStore (pageStep p i) <> Some [].
Proof.
  intros [E N]; destruct i as [| r | signedOut]; cbn [pageStep].
  - unfold handleLoginBegin; destruct (initialLoginInProgress p); auto.
  - destruct (handleLoginSettle_tokens r p) as [-> ->].
    destruct (truthyStr (signInToken r)) eqn:T; split; try congruence.
    apply truthy_not_empty; exact T.
  - destruct signedOut; simpl; split; congruence.
Qed.

(** X6. From the loaded page, whatever sequence of login clicks, settled
    sign-ins and settled sign-outs follows, the [accessToken] store and the
    [calendar_access_token] entry of the local storage hold the same value,
    and that value is never the empty string (given that the entry found at
    load time is not the empty string). *)
Theorem store_and_storage_agree (stored : option str)
    (inputs : list PageInput) :
  stored <> Some [] ->
  accessTokenStore (pageRun (loaded true stored) inputs)
  = storedToken (pageRun (loaded true stored) inputs)
  /\ accessTokenStore (pageRun (loaded true stored) inputs) <> Some [].
Proof.
  intros N.
  assert (G : forall p,
             accessTokenStore p = storedToken p
             /\ accessTokenStore p <> Some [] ->
             accessTokenStore (pageRun p inputs)
             = storedToken (pageRun p inputs)
             /\ accessTokenStore (pageRun p inputs) <> Some []).
  { induction inputs as [|i inputs IH]; intros p H; [exact H|].
    apply (IH (pageStep p i)), pageStep_invariant, H. }
  apply G; split; [reflexivity | exact N].
Qed.

Section WithFetcher.

Variable toISOString : Z -> str.
Variable clock : nat -> Z.
Variable network : Request -> JsError + Response.

(** X7. A sign-in that does not yield a token (the popup was closed, the
    provider failed, or the credential carries no access token) removes any
    token held before, from the store and from the local storage, and ends
    the login in progress. The page then shows the login screen, and a fetch
    issued from that state throws No access token available without any
    request. *)
Theorem failed_sign_in_drops_token (r : SignIn) (p : PageState)
    (user : bool) (w : World) (startDate endDate : option Date) :
  truthyStr (signInToken r) = false ->
  let p' := handleLoginSettle r p in
  accessTokenStore p' = None
  /\ storedToken p' = None
  /\ initialLoginInProgress p' = false
  /\ showsCalendar user p' = false
  /\ fst (getCalendarEvents toISOString startDate endDate
            (envOf p' clock network) w)
     = Thrown (mkError (lit "No access token available"))
  /\ requests (effects (snd (getCalendarEvents toISOString startDate endDate
                               (envOf p' clock network) w)))
     = requests (effects w).
Proof.
  intros T p'.
  destruct (handleLoginSettle_tokens r p) as [S L].
  rewrite T in S, L; fold p' in S, L.
  assert (F : initialLoginInProgress p' = false).
  { subst p'; destruct r as [code | [[token] |]]; simpl; try reflexivity.
    destruct (truthyStr token); reflexivity. }
  split; [exact S|]; split; [exact L|]; split; [exact F|].
  split; [unfold showsCalendar; rewrite S; apply andb_false_r|].
  rewrite FetcherRuns.run_without_token
    by (unfold envOf; cbn [accessToken]; rewrite S; reflexivity).
  cbn [fst snd]; unfold logged; cbn [effects map].
  rewrite FetcherRuns.requests_snoc; simpl; rewrite app_nil_r.
  split; reflexivity.
Qed.

(** X8. A sign-in that yields a non-empty token puts that token in the store
    and in the local storage and ends the login in progress. With a user
    present the page shows the calendar, and a fetch issued from that state
    sends exactly one request, whose Authorization header is Bearer followed
    by that token. *)
Theorem sign_in_token_is_the_bearer (r : SignIn) (p : PageState) (w : World)
    (startDate endDate : option Date) (token : str) :
  signInToken r = Some token ->
  token <> [] ->
  let p' := handleLoginSettle r p in
  accessTokenStore p' = Some token
  /\ storedToken p' = Some token
  /\ initialLoginInProgress p' = false
  /\ showsCalendar true p' = true
  /\ exists request,
       requests (effects (snd (getCalendarEvents toISOString startDate
                                 endDate (envOf p' clock network) w)))
       = requests (effects w) ++ [request]
       /\ requestHeaders request
          = [ (lit "Authorization", lit "Bearer " ++ token);
              (lit "Accept", lit "application/json") ].
Proof.
  intros E N p'.
  assert (T : truthyStr (signInToken r) = true)
    by (rewrite E; destruct token; [congruence | reflexivity]).
  destruct (handleLoginSettle_tokens r p) as [S L].
  rewrite T, E in S, L; fold p' in S, L.
  assert (F : initialLoginInProgress p' = false).
  { subst p'; destruct r as [code | [[tok] |]]; simpl; try reflexivity.
    destruct (truthyStr tok); reflexivity. }
  split; [exact S|]; split; [exact L|]; split; [exact F|].
  split; [unfold showsCalendar; rewrite S, <- E; exact T|].
  assert (Te : truthyStr (accessToken (envOf p' clock network)) = true)
    by (unfold envOf; cbn [accessToken]; rewrite S, <- E; exact T).
  exists (requestOf toISOString (envOf p' clock network) w startDate endDate).
  rewrite (FetcherRuns.run_with_token toISOString _ w startDate endDate Te).
  cbv zeta.
  split.
  - destruct (Fetcher.network _ _) as [e | resp];
      [|destruct (json resp) as [e | body]; [|destruct (ok resp)]];
      cbn [snd]; unfold logged, requested; cbn [effects map];
      rewrite !FetcherRuns.requests_snoc; cbn [requests];
      rewrite ?app_nil_r; reflexivity.
  - unfold requestOf, envOf; cbn [requestHeaders accessToken].
    rewrite S; reflexivity.
Qed.

End WithFetcher.

End PageFacts.

Lemma store_and_storage_agree_witness :
  Page.accessTokenStore
    (Page.pageRun (Page.loaded true (Some (lit "ya29.old")))
       [Page.ClickLogin; Page.SignInSettled (Page.SignInRejected None)])
  = Page.storedToken
      (Page.pageRun (Page.loaded true (Some (lit "ya29.old")))
         [Page.ClickLogin; Page.SignInSettled (Page.SignInRejected None)]).
Proof.
  refine (proj1 (@PageFacts.store_and_storage_agree (Some (lit "ya29.old"))
                   [Page.ClickLogin;
                    Page.SignInSettled (Page.SignInRejected None)] _)).
  discriminate.
Defined.

Lemma failed_sign_in_drops_token_witness :
  Page.accessTokenStore
    (Page.handleLoginSettle
       (Page.SignInRejected (Some (lit "auth/popup-closed-by-user")))
       (Page.loaded true (Some (lit "ya29.old"))))
  = None.
Proof.
  exact (proj1 (@PageFacts.failed_sign_in_drops_token Samples.sampleISO
                  (fun _ => 0%Z)
                  (fun _ => inl (Fetcher.mkError []))
                  (Page.SignInRejected (Some (lit "auth/popup-closed-by-user")))
                  (Page.loaded true (Some (lit "ya29.old")))
                  true Samples.fresh None None eq_refl)).
Defined.

Lemma sign_in_token_is_the_bearer_witness :
  Page.accessTokenStore
    (Page.handleLoginSettle
       (Page.SignInResolved
          (Some {| Page.credentialAccessToken := Some (lit "ya29.new") |}))
       (Page.loaded true None))
  = Some (lit "ya29.new").
Proof.
  refine (proj1 (@PageFacts.sign_in_token_is_the_bearer Samples.sampleISO
                   (fun _ => 0%Z)
                   (fun _ => inl (Fetcher.mkError []))
                   (Page.SignInResolved
                      (Some {| Page.credentialAccessToken :=
                                 Some (lit "ya29.new") |}))
                   (Page.loaded true None) Samples.fresh None None
                   (lit "ya29.new") eq_refl _)).
  discriminate.
Defined.

(** ** What the component shows *)

Module ViewFacts.

Import Fetcher Calendar View.

Lemma ifTruthy_id (o : option str) (fallback : str) :
  ifTruthy o (fun l => l) fallback = orElse o fallback.
Proof. destruct o as [[|c s]|]; reflexivity. Qed.

Lemma filterEvents_empty_all (E : list Event) :
  filterEvents E [] (lit "all") = E.
Proof.
  unfold filterEvents; induction E as [|e E IH]; cbn [filter]; [reflexivity|].
  rewrite keeps_empty_all, IH; reflexivity.
Qed.

Lemma length_zero_nil {A : Type} (l : list A) :
  (length l =? 0) = true -> l = [].
Proof. destruct l; [reflexivity | discriminate]. Qed.

Section WithFormat.

Variable format : str -> str -> str.

(** X9. What is on screen is what is exported: the five texts of an event's
    row in the on-screen table (title, start, end, location, type) are the
    first five cells of its CSV row and the five cells of its printed row.
    The description line is shown under the title exactly when the event has
    a non-empty description, which is then the sixth CSV cell; the pin icon
    is shown exactly when the location text is the event's own. *)
Theorem screen_row_matches_export (e : Event) :
  let r := screenRow format e in
  csvData format [e]
  = [[cellTitle r; cellStart r; cellEnd r; cellLocation r; cellType r;
      orElse (description e) []]]
  /\ pdfRow format e
     = tableRow [cellTitle r; cellStart r; cellEnd r; cellLocation r;
                 cellType r]
  /\ (cellDescription r = None <-> noValue (description e))
  /\ (forall d, cellDescription r = Some d ->
        d <> [] /\ description e = Some d /\ orElse (description e) [] = d)
  /\ (locationPin r = true <-> location e = Some (cellLocation r)
                              /\ cellLocation r <> [])
  /\ (locationPin r = false -> cellLocation r = lit "No location").
Proof.
  intros r; subst r; unfold screenRow;
    cbn [cellTitle cellDescription cellStart cellEnd cellLocation locationPin
         cellType].
  rewrite ifTruthy_id.
  split; [apply csvData_cons|].
  split; [apply pdfRow_tableRow|].
  split.
  { unfold noValue; destruct (description e) as [[|c s]|]; simpl; split;
      try discriminate; auto; intros [H | H]; discriminate. }
  split.
  { intros d; destruct (description e) as [[|c s]|]; simpl;
      try discriminate.
    intros [= <-]; repeat split; discriminate. }
  split.
  { destruct (location e) as [[|c s]|]; simpl; split; try discriminate; auto.
    - intros [H _]; discriminate.
    - intros _; split; [reflexivity | discriminate].
    - intros [H _]; discriminate. }
  destruct (location e) as [[|c s]|]; simpl; try discriminate; reflexivity.
Qed.

(** X10. In every state the component reaches from its mounted state, the
    notice No events found for the selected date range is on screen only when
    the last successful fetch delivered no event at all (or none succeeded
    yet), with an empty search box and the selector all; and whenever the
    table is on screen it has one row per visible event. *)
Theorem date_range_notice_means_no_events (startDate0 endDate0 : str)
    (inputs : list Input) :
  let c := run (mounted startDate0 endDate0) inputs in
  (panel format c
   = EmptyNotice (lit "No events found for the selected date range.") ->
   events c = [] /\ lastDelivered inputs [] = []
   /\ searchQuery c = [] /\ selectedType c = lit "all")
  /\ (forall rows, panel format c = EventTable rows ->
        rows = map (screenRow format) (filteredEvents c)
        /\ length rows = length (filteredEvents c)
        /\ filteredEvents c <> []).
Proof.
  intros c.
  destruct (CalendarFacts.run_spec inputs
              (CalendarFacts.mounted_consistent startDate0 endDate0))
    as (K & E & _ & _).
  destruct (CalendarFacts.mounted_fields startDate0 endDate0) as (E0 & _ & _).
  rewrite E0 in E; fold c in K, E.
  unfold panel; split.
  - destruct (loading c); [discriminate|].
    destruct (truthyStr (error c)); [discriminate|].
    destruct (length (filteredEvents c) =? 0) eqn:Z; [|discriminate].
    apply length_zero_nil in Z.
    destruct (searchQuery c) as [|ch q] eqn:Q; cbn [truthyStr orb];
      [|intros H; injection H as H; discriminate].
    destruct (strEq (selectedType c) (lit "all")) eqn:T; cbn [negb];
      [|intros H; injection H as H; discriminate].
    intros _; apply strEq_true_iff in T.
    unfold consistent in K; rewrite Q, T, filterEvents_empty_all, Z in K.
    rewrite <- E, <- K; auto.
  - intros rows.
    destruct (loading c); [discriminate|].
    destruct (truthyStr (error c)); [discriminate|].
    destruct (length (filteredEvents c) =? 0) eqn:Z; [discriminate|].
    intros [= <-]; split; [reflexivity|]; split; [apply length_map|].
    intros H; rewrite H in Z; discriminate.
Qed.

Lemma quiet_step (c : Component) (i : Input) :
  quiet i = true ->
  error (step c i) = error c
  /\ (loading c = false -> loading (step c i) = false).
Proof.
  destruct i as [q | t | d | d | today | [evs | e]]; cbn [quiet step];
    try discriminate; intros _;
    try match goal with
        | |- context [if ?b then _ else _] => destruct b
        end; simpl; auto.
Qed.

(** X11. Once a fetch has failed, its message stays on screen until the next
    fetch is started: search edits, type selections and even later
    successful fetches (which do replace the events) leave the error box in
    place. *)
Theorem error_box_persists (c : Component) (m : str)
    (inputs : list Input) :
  loading c = false ->
  error c = Some m ->
  m <> [] ->
  forallb quiet inputs = true ->
  panel format (run c inputs) = ErrorBox m
  /\ events (run c inputs) = lastDelivered inputs (events c).
Proof.
  intros L E N Q.
  assert (G : loading (run c inputs) = false /\ error (run c inputs) = Some m).
  { revert c L E Q; induction inputs as [|i inputs IH]; intros c L E Q;
      [auto|].
    cbn [forallb] in Q; apply andb_true_iff in Q; destruct Q as [Qi Q].
    destruct (quiet_step c i Qi) as [Ei Li].
    apply (IH (step c i)); [apply Li, L | rewrite Ei; exact E | exact Q]. }
  destruct G as [L' E']; split.
  - unfold panel; rewrite L', E'.
    destruct m; [congruence | reflexivity].
  - clear; revert c; induction inputs as [|i inputs IH]; intros c;
      [reflexivity|].
    cbn [run fold_left]; fold (run (step c i) inputs).
    rewrite IH, CalendarFacts.lastDelivered_cons, CalendarFacts.step_events.
    reflexivity.
Qed.

Lemma unsettled_step (c : Component) (i : Input) :
  settles i = false ->
  loading c = true -> error c = None ->
  loading (step c i) = true /\ error (step c i) = None
  /\ events (step c i) = events c.
Proof.
  destruct i as [q | t | d | d | today | r]; cbn [settles step];
    try discriminate; intros _ L E;
    (match goal with
     | |- context [if ?b then _ else _] => destruct b
     end; [auto|]);
    unfold reactiveLoad;
    try match goal with
        | |- context [if ?b then _ else _] => destruct b
        end; simpl; auto.
Qed.

(** X12. From mounting until the first fetch settles, whatever the user types
    or selects, the spinner is the only thing on screen: no table, no notice
    and no error is shown, and [events] stays empty. *)
Theorem spinner_until_first_settle (startDate0 endDate0 : str)
    (inputs : list Input) :
  forallb (fun i => negb (settles i)) inputs = true ->
  panel format (run (mounted startDate0 endDate0) inputs) = Spinner
  /\ events (run (mounted startDate0 endDate0) inputs) = []
  /\ error (run (mounted startDate0 endDate0) inputs) = None.
Proof.
  intros Q.
  assert (G : forall c, loading c = true -> error c = None ->
                loading (run c inputs) = true
                /\ error (run c inputs) = None
                /\ events (run c inputs) = events c).
  { induction inputs as [|i inputs IH]; intros c L E; [auto|].
    cbn [forallb] in Q; apply andb_true_iff in Q; destruct Q as [Qi Q].
    apply negb_true_iff in Qi.
    destruct (unsettled_step c i Qi L E) as (L' & E' & V').
    cbn [run fold_left]; fold (run (step c i) inputs).
    destruct (IH Q (step c i) L' E') as (L2 & E2 & V2).
    rewrite V2, V'; auto. }
  destruct (G (mounted startDate0 endDate0) eq_refl eq_refl) as (L & E & V).
  unfold panel; rewrite L, V, E.
  destruct (CalendarFacts.mounted_fields startDate0 endDate0) as (-> & _).
  auto.
Qed.

End WithFormat.

End ViewFacts.

Lemma spinner_until_first_settle_witness :
  View.panel Samples.sampleFormat
    (Calendar.run (Calendar.mounted (lit "2024-01-01") (lit "2024-01-31"))
       [Calendar.EditSearchQuery (lit "stand");
        Calendar.ClickToday (lit "2024-01-15")])
  = View.Spinner.
Proof.
  exact (proj1 (@ViewFacts.spinner_until_first_settle Samples.sampleFormat
                  (lit "2024-01-01") (lit "2024-01-31")
                  [Calendar.EditSearchQuery (lit "stand");
                   Calendar.ClickToday (lit "2024-01-15")] eq_refl)).
Defined.

Lemma error_box_persists_witness :
  View.panel Samples.sampleFormat
    (Calendar.run
       (Calendar.step 
          (Calendar.mounted (lit "2024-01-01") (lit "2024-01-31"))
          (Calendar.FetchSettled
             (Fetcher.Thrown (Fetcher.mkError (lit "Quota exceeded")))))
       [Calendar.EditSearchQuery (lit "stand");
        Calendar.FetchSettled (Fetcher.Returned [Samples.standup])])
  = View.ErrorBox (lit "Quota exceeded").
Proof.
  refine (proj1 (@ViewFacts.error_box_persists Samples.sampleFormat
                   (Calendar.step
                      (Calendar.mounted (lit "2024-01-01") (lit "2024-01-31"))
                      (Calendar.FetchSettled
                         (Fetcher.Thrown
                            (Fetcher.mkError (lit "Quota exceeded")))))
                   (lit "Quota exceeded")
                   [Calendar.EditSearchQuery (lit "stand");
                    Calendar.FetchSettled (Fetcher.Returned [Samples.standup])]
                   eq_refl eq_refl _ eq_refl)).
  discriminate.
Defined.

(** ** [loadEvents] from start to end *)

Module LoadFacts.

Import Fetcher Calendar View.

Section WithSurroundings.

Variable toISOString : Z -> str.
Variable newDate : str -> Date.
Variable format : str -> str -> str.

(** X13. Without a token, [loadEvents] issues no request, keeps [events] and
    [filteredEvents] as they were, ends with [loading] off and puts the
    message No access token available on screen. *)
Theorem load_without_token (env : Env) (w : World) (c : Component) :
  truthyStr (accessToken env) = false ->
  let c' := fst (loadEvents toISOString newDate env w c) in
  let w' := snd (loadEvents toISOString newDate env w c) in
  events c' = events c
  /\ filteredEvents c' = filteredEvents c
  /\ loading c' = false
  /\ error c' = Some (lit "No access token available")
  /\ panel format c' = ErrorBox (lit "No access token available")
  /\ requests (effects w') = requests (effects w).
Proof.
  intros T c' w'; subst c' w'; unfold loadEvents; cbv zeta.
  rewrite FetcherRuns.run_without_token by exact T.
  cbn [fst snd loadEventsSettle loadEventsBegin events filteredEvents loading
       error message].
  repeat split.
  unfold logged; cbn [effects map].
  rewrite FetcherRuns.requests_snoc; simpl; apply app_nil_r.
Qed.

(** X14. With a token and both date inputs filled, the one request of
    [loadEvents] asks for exactly the window between the two chosen dates,
    and the clock is not read. With an input left empty, that bound comes
    from the clock: now for the start, now plus thirty days for the end. *)
Theorem load_window (env : Env) (w : World) (c : Component) :
  truthyStr (accessToken env) = true ->
  let w' := snd (loadEvents toISOString newDate env w c) in
  exists request rest,
    requests (effects w') = requests (effects w) ++ [request]
    /\ searchParams request
       = (lit "timeMin",
          match startDate c with
          | [] => toISOString (clock env (ticks w))
          | _ :: _ => toISOString (getTime (newDate (startDate c)))
          end)
         :: (lit "timeMax",
             match endDate c with
             | [] =>
                 toISOString
                   (clock env (ticks w + match startDate c with
                                         | [] => 1
                                         | _ :: _ => 0
                                         end)
                    + 2592000000)
             | _ :: _ => toISOString (getTime (newDate (endDate c)))
             end)
         :: rest
    /\ (startDate c <> [] -> endDate c <> [] -> ticks w' = ticks w).
Proof.
  intros T w'; subst w'; unfold loadEvents; cbv zeta.
  cbn [loadEventsBegin startDate endDate].
  rewrite FetcherRuns.run_with_token by exact T; cbv zeta.
  eexists; eexists.
  split; [|split].
  - destruct (network env _) as [e | resp];
      [|destruct (json resp) as [e | body]; [|destruct (ok resp)]];
      cbn [snd]; unfold logged, requested; cbn [effects map];
      rewrite !FetcherRuns.requests_snoc; cbn [requests];
      rewrite ?app_nil_r; reflexivity.
  - unfold requestOf; cbn [searchParams].
    destruct (startDate c) as [|a s], (endDate c) as [|b t];
      cbn [truthyStr expectedTimeMin expectedTimeMax];
      rewrite ?Nat.add_0_r, ?Nat.add_1_r; reflexivity.
  - intros Hs He.
    destruct (startDate c) as [|a s], (endDate c) as [|b t]; try congruence.
    cbn [truthyStr].
    destruct (network env _) as [e | resp];
      [|destruct (json resp) as [e | body]; [|destruct (ok resp)]];
      cbn [snd]; unfold logged, requested; cbn [ticks unspecified]; lia.
Qed.

(** X15. A [loadEvents] that runs undisturbed ends with [loading] off and
    the criteria unchanged, and its end state follows the outcome of its call
    of [getCalendarEvents] on the two date inputs. If the call returned a
    list, [events] is that list, [filteredEvents] its filter under the
    current criteria and no error is set. If it threw, [events] and
    [filteredEvents] are untouched and [error] is the message of the thrown
    error. In terms of the endpoint: on a success response [events] becomes
    the [items] of the body (or empty); on a refusal the lists are kept and
    the error box shows the endpoint's message, or Failed to fetch calendar
    events when it gives none. *)
Theorem load_outcome (env : Env) (w : World) (c : Component) :
  let c' := fst (loadEvents toISOString newDate env w c) in
  let fetched :=
    fst (getCalendarEvents toISOString
           (inputDate newDate (startDate c)) (inputDate newDate (endDate c))
           env w) in
  loading c' = false
  /\ searchQuery c' = searchQuery c
  /\ selectedType c' = selectedType c
  /\ match fetched with
     | Returned l =>
         events c' = l
         /\ filteredEvents c'
            = filterEvents l (searchQuery c) (selectedType c)
         /\ error c' = None
     | Thrown e =>
         events c' = events c
         /\ filteredEvents c' = filteredEvents c
         /\ error c' = Some (message e)
     end
  /\ (forall resp body,
        truthyStr (accessToken env) = true ->
        network env
          (requestOf toISOString env w (inputDate newDate (startDate c))
             (inputDate newDate (endDate c)))
        = inr resp ->
        json resp = inr body ->
        if ok resp then
          events c' = itemsOrEmpty body
          /\ filteredEvents c'
             = filterEvents (itemsOrEmpty body) (searchQuery c)
                 (selectedType c)
          /\ error c' = None
        else
          events c' = events c
          /\ filteredEvents c' = filteredEvents c
          /\ error c'
             = Some (orElse (errorMessage body)
                       (lit "Failed to fetch calendar events"))
          /\ panel format c'
             = ErrorBox (orElse (errorMessage body)
                           (lit "Failed to fetch calendar events"))).
Proof.
  intros c' fetched.
  assert (Hc : c' = loadEventsSettle fetched (loadEventsBegin c))
    by reflexivity.
  split; [|split; [|split; [|split]]].
  - rewrite Hc; destruct fetched; reflexivity.
  - rewrite Hc; destruct fetched; reflexivity.
  - rewrite Hc; destruct fetched; reflexivity.
  - rewrite Hc; destruct fetched; repeat split.
  - intros resp body T N J.
    assert (F : fetched
                = if ok resp then Returned (itemsOrEmpty body)
                  else Thrown (mkError
                                 (orElse (errorMessage body)
                                    (lit "Failed to fetch calendar events")))).
    { subst fetched; rewrite FetcherRuns.run_with_token by exact T.
      cbv zeta; rewrite N, J; destruct (ok resp); reflexivity. }
    rewrite Hc, F; destruct (ok resp); repeat split.
    cbn [loadEventsSettle loadEventsBegin message].
    unfold panel; cbn [loading error].
    destruct (errorMessage body) as [[|a m]|]; reflexivity.
Qed.

End WithSurroundings.

End LoadFacts.

Lemma load_without_token_witness :
  Calendar.error
    (fst (loadEvents Samples.sampleISO (fun _ => MoreSamples.january)
            Samples.offline Samples.fresh
            (Calendar.mounted (lit "2024-01-01") (lit "2024-01-31"))))
  = Some (lit "No access token available").
Proof.
  destruct (@LoadFacts.load_without_token Samples.sampleISO
              (fun _ => MoreSamples.january) Samples.sampleFormat
              Samples.offline Samples.fresh
              (Calendar.mounted (lit "2024-01-01") (lit "2024-01-31"))
              eq_refl)
    as (_ & _ & _ & E & _).
  exact E.
Defined.

Lemma load_window_witness :
  exists request rest,
    Fetcher.requests
      (Fetcher.effects
         (snd (loadEvents Samples.sampleISO (fun _ => MoreSamples.january)
                 Samples.online Samples.fresh
                 (Calendar.mounted (lit "2024-01-01") []))))
    = [request]
    /\ Fetcher.searchParams request
       = (lit "timeMin", lit "late") :: (lit "timeMax", lit "late") :: rest.
Proof.
  destruct (@LoadFacts.load_window Samples.sampleISO
              (fun _ => MoreSamples.january) Samples.online Samples.fresh
              (Calendar.mounted (lit "2024-01-01") []) eq_refl)
    as (request & rest & R & P & _).
  exists request, rest; split; [exact R | exact P].
Defined.

(** ** More on the filter *)

Module FilterFacts.

Lemma isWhiteSpace_lowerChar (c : ascii) :
  isWhiteSpace (lowerChar c) = isWhiteSpace c.
Proof. destruct c as [[] [] [] [] [] [] [] []]; reflexivity. Qed.

Lemma lowerChar_idempotent (c : ascii) : lowerChar (lowerChar c) = lowerChar c.
Proof. destruct c as [[] [] [] [] [] [] [] []]; reflexivity. Qed.

Lemma toLowerCase_idempotent (s : str) :
  toLowerCase (toLowerCase s) = toLowerCase s.
Proof.
  unfold toLowerCase; rewrite map_map; apply map_ext, lowerChar_idempotent.
Qed.

Lemma trim_nil_bool (q : str) : strEq (trim q) [] = forallb isWhiteSpace q.
Proof.
  apply eq_true_iff_eq.
  rewrite strEq_true_iff, trim_nil_iff; unfold whitespaceOnly.
  rewrite Forall_forall, forallb_forall; tauto.
Qed.

Lemma whitespace_lower (q : str) :
  forallb isWhiteSpace (toLowerCase q) = forallb isWhiteSpace q.
Proof.
  induction q as [|c q IH]; simpl; [reflexivity|].
  rewrite isWhiteSpace_lowerChar, IH; reflexivity.
Qed.

Lemma matchesSearch_bool (q : str) (e : Event) :
  truthy (matchesSearch q e)
  = forallb isWhiteSpace q
    || truthy (fieldIncludes (summary e) q)
    || truthy (fieldIncludes (description e) q)
    || truthy (fieldIncludes (location e) q).
Proof.
  unfold matchesSearch; rewrite !truthy_jsOr; cbn [truthy].
  rewrite trim_nil_bool; reflexivity.
Qed.

Lemma fieldIncludes_lower (o : option str) (q q' : str) :
  toLowerCase q = toLowerCase q' -> fieldIncludes o q = fieldIncludes o q'.
Proof. intros H; unfold fieldIncludes; rewrite H; reflexivity. Qed.

Lemma keeps_lower (q q' t : str) (e : Event) :
  toLowerCase q = toLowerCase q' -> keeps q t e = keeps q' t e.
Proof.
  intros H; rewrite !keeps_eq, !matchesSearch_bool.
  rewrite !(fieldIncludes_lower _ q q' H).
  rewrite <- (whitespace_lower q), <- (whitespace_lower q'), H; reflexivity.
Qed.

(** X16. The letter case of the query does not matter: two queries with the
    same lower-case form select the same events, in particular a query and
    its lower-case form do. *)
Theorem query_case_does_not_matter (E : list Event) (q q' t : str) :
  toLowerCase q = toLowerCase q' ->
  filterEvents E q t = filterEvents E q' t
  /\ filterEvents E (toLowerCase q) t = filterEvents E q t.
Proof.
  intros H; unfold filterEvents; split; apply filter_ext; intros e.
  - apply keeps_lower, H.
  - apply keeps_lower, toLowerCase_idempotent.
Qed.

Lemma filter_of_filter {A : Type} (p p' : A -> bool) (l : list A) :
  (forall x, p' x = true -> p x = true) ->
  filter p' (filter p l) = filter p' l.
Proof.
  intros H; induction l as [|a l IH]; simpl; [reflexivity|].
  destruct (p a) eqn:P; simpl.
  - rewrite IH; reflexivity.
  - destruct (p' a) eqn:P'; [|exact IH].
    rewrite (H a P') in P; discriminate.
Qed.

Lemma filter_shorter {A : Type} (p : A -> bool) (l : list A) :
  length (filter p l) <= length l.
Proof.
  induction l as [|a l IH]; simpl; [lia|].
  destruct (p a); simpl; lia.
Qed.

Lemma filter_filter_and {A : Type} (p p' : A -> bool) (l : list A) :
  filter p' (filter p l) = filter (fun x => p x && p' x) l.
Proof.
  induction l as [|a l IH]; simpl; [reflexivity|].
  destruct (p a); simpl; [destruct (p' a)|]; rewrite IH; reflexivity.
Qed.

Lemma keeps_text_only (q : str) (e : Event) :
  keeps q (lit "all") e = truthy (matchesSearch q e).
Proof. rewrite keeps_eq, matchesType_all; apply andb_true_r. Qed.

Lemma keeps_type_only (t : str) (e : Event) :
  keeps [] t e = matchesType t e.
Proof. rewrite keeps_eq; reflexivity. Qed.

(** X18. The text test and the type test are independent filters: filtering
    by the query alone and then by the type alone (or the other way round)
    gives the result of filtering by both, and two filters applied one after
    the other commute. *)
Theorem text_and_type_filters_compose (E : list Event) (q t q' t' : str) :
  filterEvents (filterEvents E q (lit "all")) [] t = filterEvents E q t
  /\ filterEvents (filterEvents E [] t) q (lit "all") = filterEvents E q t
  /\ filterEvents (filterEvents E q t) q' t'
     = filterEvents (filterEvents E q' t') q t.
Proof.
  unfold filterEvents; rewrite !filter_filter_and; repeat split;
    apply filter_ext; intros e.
  - rewrite keeps_text_only, keeps_type_only, keeps_eq; reflexivity.
  - rewrite keeps_text_only, keeps_type_only, keeps_eq; apply andb_comm.
  - apply andb_comm.
Qed.

End FilterFacts.

Module WideFilterFacts.

Import Wide.

Lemma not_blank (u : N) (s : wstr) :
  isWhiteSpace u = false -> ~ whiteSpaceOnly (u :: s).
Proof.
  intros W H; apply Forall_inv in H; apply WideFacts.isWhiteSpace_iff in H.
  congruence.
Qed.

Section WithLowerCase.

Variable toLowerCase : wstr -> wstr.

Lemma keeps_narrower (q q' t : wstr) (e : Event) :
  segmentOf (toLowerCase q) (toLowerCase q') ->
  (whiteSpaceOnly q' -> whiteSpaceOnly q) ->
  keeps toLowerCase q' t e = true -> keeps toLowerCase q t e = true.
Proof.
  intros S B; rewrite !WideFacts.wide_keeps_eq, !andb_true_iff,
    !WideFacts.wide_matchesSearch_iff.
  intros [[W | (s & F & C)] T]; split; try exact T.
  - left; apply B, W.
  - right; exists s; split; [exact F|].
    apply (WideFacts.segmentOf_trans S C).
Qed.

(** X17. Extending the query only narrows the result. When the lower-case
    form of the query [q] occurs inside the lower-case form of the query
    [q'], and [q] is blank if [q'] is, every event selected by [q'] is
    selected by [q]; the result for [q'] can be computed by filtering the
    result for [q], and is no longer than it. This holds whatever the
    platform's lower-casing does. *)
Theorem longer_query_narrows (E : list Event) (q q' t : wstr) :
  segmentOf (toLowerCase q) (toLowerCase q') ->
  (whiteSpaceOnly q' -> whiteSpaceOnly q) ->
  filterEvents toLowerCase (filterEvents toLowerCase E q t) q' t
  = filterEvents toLowerCase E q' t
  /\ (forall e, In e (filterEvents toLowerCase E q' t) ->
               In e (filterEvents toLowerCase E q t))
  /\ (length (filterEvents toLowerCase E q' t)
      <= length (filterEvents toLowerCase E q t))%nat.
Proof.
  intros S B.
  assert (R : filterEvents toLowerCase (filterEvents toLowerCase E q t) q' t
              = filterEvents toLowerCase E q' t).
  { unfold filterEvents; apply FilterFacts.filter_of_filter.
    intros e; apply keeps_narrower; assumption. }
  split; [exact R|]; split.
  - intros e; unfold filterEvents; rewrite !filter_In.
    intros [I K]; split; [exact I | apply (keeps_narrower t e S B K)].
  - rewrite <- R; unfold filterEvents at 1; apply FilterFacts.filter_shorter.
Qed.

(** Where lower-casing works code unit by code unit, a query that occurs
    inside another fulfils the two conditions of the narrowing. *)
Lemma segment_narrows_unitwise (f : N -> N) (q q' : wstr) :
  (forall s, toLowerCase s = map f s) ->
  segmentOf q q' ->
  segmentOf (toLowerCase q) (toLowerCase q')
  /\ (whiteSpaceOnly q' -> whiteSpaceOnly q).
Proof.
  intros Hf (pre & post & ->); split.
  - rewrite !Hf, !map_app; exists (map f pre), (map f post); reflexivity.
  - unfold whiteSpaceOnly; rewrite !Forall_app; tauto.
Qed.

End WithLowerCase.

End WideFilterFacts.

Lemma longer_query_narrows_witness :
  Wide.filterEvents Wide.toLowerCase
    (Wide.filterEvents Wide.toLowerCase
       [widenEvent Samples.standup; widenEvent Samples.birthday]
       (Wide.widen (lit "Stand")) (Wide.widen (lit "all")))
    (Wide.widen (lit "STANDUP")) (Wide.widen (lit "all"))
  = Wide.filterEvents Wide.toLowerCase
      [widenEvent Samples.standup; widenEvent Samples.birthday]
      (Wide.widen (lit "STANDUP")) (Wide.widen (lit "all")).
Proof.
  refine (proj1 (@WideFilterFacts.longer_query_narrows Wide.toLowerCase
                   [widenEvent Samples.standup; widenEvent Samples.birthday]
                   (Wide.widen (lit "Stand")) (Wide.widen (lit "STANDUP"))
                   (Wide.widen (lit "all")) _ _)).
  - exists [], (Wide.widen (lit "up")); reflexivity.
  - intros H; exfalso; revert H; apply WideFilterFacts.not_blank.
    reflexivity.
Defined.

Lemma query_case_does_not_matter_witness :
  filterEvents [Samples.standup; Samples.birthday] (lit "STAND") (lit "all")
  = filterEvents [Samples.standup; Samples.birthday] (lit "stand") (lit "all").
Proof.
  exact (proj1 (@FilterFacts.query_case_does_not_matter
                  [Samples.standup; Samples.birthday] (lit "STAND")
                  (lit "stand") (lit "all") eq_refl)).
Defined.


(** ** Reading the exports back *)

Module ExportFacts.

Lemma parse_cell_body (cell acc : str) (row : list str)
    (rows : list (list str)) (rest : str) :
  parseCsvFrom (InCell acc) row rows
    (replaceAll dquote [dquote; dquote] cell ++ dquote :: rest)
  = parseCsvFrom (AfterQuote (rev cell ++ acc)) row rows rest.
Proof.
  revert acc; induction cell as [|c cell IH]; intros acc; [reflexivity|].
  cbn [replaceAll rev]; rewrite <- (app_assoc (rev cell)); cbn [app].
  destruct (Ascii.eqb c dquote) eqn:E.
  - apply Ascii.eqb_eq in E; subst c.
    cbn [app parseCsvFrom]; rewrite !Ascii.eqb_refl; apply IH.
  - cbn [app parseCsvFrom]; rewrite E; apply IH.
Qed.

Lemma parse_cell (cell : str) (row : list str) (rows : list (list str))
    (rest : str) :
  parseCsvFrom ExpectCell row rows (csvCell cell ++ rest)
  = parseCsvFrom (AfterQuote (rev cell)) row rows rest.
Proof.
  unfold csvCell; rewrite <- !app_assoc; cbn [app parseCsvFrom].
  rewrite Ascii.eqb_refl, parse_cell_body, app_nil_r; reflexivity.
Qed.

Lemma join_more (sep p q : str) (l : list str) :
  join sep (p :: q :: l) = p ++ sep ++ join sep (q :: l).
Proof. reflexivity. Qed.

Lemma parse_row (cells : list str) (cell : str) (row : list str)
    (rows : list (list str)) (rest : str) :
  parseCsvFrom ExpectCell row rows (csvRowText (cells ++ [cell]) ++ rest)
  = parseCsvFrom (AfterQuote (rev cell)) (rev cells ++ row) rows rest.
Proof.
  unfold csvRowText; revert row; induction cells as [|c cells IH]; intros row.
  - cbn [app map join rev]; apply parse_cell.
  - cbn [app map rev].
    destruct (map csvCell (cells ++ [cell])) as [|q l] eqn:M.
    { destruct cells; discriminate. }
    rewrite join_more, <- !app_assoc, parse_cell.
    change (lit "," ++ join (lit ",") (q :: l) ++ rest)
      with (comma :: (join (lit ",") (q :: l) ++ rest)).
    cbn [parseCsvFrom].
    replace (Ascii.eqb comma dquote) with false by reflexivity.
    rewrite Ascii.eqb_refl, rev_involutive, IH; reflexivity.
Qed.

Lemma parse_rows (rs : list (list str)) (done : list (list str)) :
  rs <> [] ->
  Forall (fun r => r <> []) rs ->
  parseCsvFrom ExpectCell [] done (join [newline] (map csvRowText rs))
  = Some (rev done ++ rs).
Proof.
  revert done; induction rs as [|r rs IH]; intros done N F; [congruence|].
  inversion F as [|? ? Hr Frs]; subst.
  destruct (exists_last Hr) as (cells & cell & ->).
  destruct rs as [|r2 rs].
  - cbn [map join].
    rewrite <- (app_nil_r (csvRowText (cells ++ [cell]))), parse_row.
    cbn [parseCsvFrom]; rewrite app_nil_r, rev_involutive.
    cbn [rev]; rewrite rev_involutive; reflexivity.
  - change (map csvRowText ((cells ++ [cell]) :: r2 :: rs))
      with (csvRowText (cells ++ [cell])
              :: csvRowText r2 :: map csvRowText rs).
    rewrite join_more, parse_row.
    change ([newline] ++ join [newline] (csvRowText r2 :: map csvRowText rs))
      with (newline :: join [newline] (map csvRowText (r2 :: rs))).
    cbn [parseCsvFrom].
    replace (Ascii.eqb newline dquote) with false by reflexivity.
    replace (Ascii.eqb newline comma) with false by reflexivity.
    rewrite Ascii.eqb_refl, app_nil_r, rev_involutive.
    cbn [rev]; rewrite rev_involutive.
    rewrite IH by (auto; discriminate).
    cbn [rev]; rewrite <- app_assoc; reflexivity.
Qed.

Lemma afterFirstLine_app (h b : str) :
  forallb (fun c => negb (Ascii.eqb c newline)) h = true ->
  afterFirstLine (h ++ newline :: b) = Some b
  /\ firstLine (h ++ newline :: b) = h
  /\ afterFirstLine h = None
  /\ firstLine h = h.
Proof.
  induction h as [|c h IH]; cbn [forallb app afterFirstLine firstLine].
  - rewrite Ascii.eqb_refl; auto.
  - intros H; apply andb_true_iff in H; destruct H as [C H].
    apply negb_true_iff in C; rewrite C.
    destruct (IH H) as (A & B & A' & B'); rewrite A, B, A', B'; auto.
Qed.

Section WithFormat.

Variable format : str -> str -> str.

Lemma csvData_rows_nonempty (evs : list Event) :
  Forall (fun r => r <> []) (csvData format evs).
Proof.
  unfold csvData; apply Forall_forall; intros r H.
  apply in_map_iff in H; destruct H as (e & <- & _); discriminate.
Qed.

(** X19. The CSV export can be read back without loss: the first line of the
    exported text is the header, and a reader of quoted CSV applied to the
    text under the header returns exactly the rows of cells that were
    exported, one row per event in order, whatever commas, double quotes or
    newlines the cells contain. *)
Theorem csv_export_reads_back (evs : list Event) (today : str) :
  firstLine (content (exportToCSV format evs today))
  = lit "Title,Start,End,Location,Type,Description"
  /\ parseCsv (content (exportToCSV format evs today))
     = Some (csvData format evs)
  /\ length (csvData format evs) = length evs.
Proof.
  cbn [content exportToCSV]; rewrite csvContent_shape.
  assert (H : forallb (fun c => negb (Ascii.eqb c newline))
                (lit "Title,Start,End,Location,Type,Description") = true)
    by reflexivity.
  split; [|split; [|unfold csvData; apply length_map]].
  - destruct (csvData format evs) as [|r rs]; cbn [map concat].
    + rewrite app_nil_r.
      destruct (@afterFirstLine_app _ [] H) as (_ & _ & _ & F); exact F.
    + cbn [app].
      match goal with
      | |- firstLine (_ ++ newline :: ?b) = _ =>
          destruct (@afterFirstLine_app _ b H) as (_ & F & _); exact F
      end.
  - unfold parseCsv.
    pose proof (csvData_rows_nonempty evs) as F.
    destruct (csvData format evs) as [|r rs]; cbn [map concat].
    + rewrite app_nil_r.
      destruct (@afterFirstLine_app _ [] H) as (_ & _ & -> & _); reflexivity.
    + cbn [app].
      match goal with
      | |- match afterFirstLine (_ ++ newline :: ?b) with _ => _ end = _ =>
          destruct (@afterFirstLine_app _ b H) as (-> & _);
          assert (J : b = join [newline] (map csvRowText (r :: rs)))
            by (cbn [map]; rewrite join_cons, map_map; reflexivity)
      end.
      rewrite J, parse_rows by (auto; discriminate); reflexivity.
Qed.

Lemma cellBreak_split :
  cellBreak = lit "</td>" ++ lit "
                                    <td>".
Proof. reflexivity. Qed.

(** X20. The printed document, unlike the CSV, does not keep cells apart:
    texts are inserted as they are, so a title that carries the markup
    between two cells prints exactly like a shorter title with the remainder
    moved into the location. The two events have different CSV rows. *)
Theorem printed_row_is_ambiguous (a b c : str) (kind : option str) :
  a <> [] -> b <> [] -> c <> [] ->
  pdfRow format (undated (threeCells a b) c kind)
  = pdfRow format (undated a (threeCells b c) kind)
  /\ csvData format [undated (threeCells a b) c kind]
     <> csvData format [undated a (threeCells b c) kind].
Proof.
  intros Ha Hb Hc.
  destruct a as [|a0 a]; [congruence|].
  destruct b as [|b0 b]; [congruence|].
  destruct c as [|c0 c]; [congruence|].
  split.
  - rewrite !pdfRow_tableRow; unfold undated, threeCells, tableRow, dateText.
    rewrite cellBreak_split.
    cbn [summary location eventType start end_ chain ifTruthy app orElse
         map concat].
    repeat (rewrite <- app_assoc || rewrite <- app_comm_cons).
    reflexivity.
  - rewrite !csvData_cons; unfold undated, threeCells.
    cbn [summary location eventType start end_ description app orElse].
    intros H; injection H as H _.
    apply (f_equal (@length ascii)) in H.
    rewrite !length_app in H; cbn [length] in H.
    unfold cellBreak in H; cbn in H; lia.
Qed.

End WithFormat.

End ExportFacts.

Lemma printed_row_is_ambiguous_witness :
  pdfRow Samples.sampleFormat
    (undated (threeCells (lit "Lunch") (lit "Cafe")) (lit "Room 2") None)
  = pdfRow Samples.sampleFormat
      (undated (lit "Lunch") (threeCells (lit "Cafe") (lit "Room 2")) None).
Proof.
  refine (proj1 (@ExportFacts.printed_row_is_ambiguous Samples.sampleFormat
                   (lit "Lunch") (lit "Cafe") (lit "Room 2") None _ _ _));
    discriminate.
Defined.

(** ** The details dialog *)

Module ModalFacts.

Import View.

Lemma modal_after (inputs : list ModalInput) (m : ModalState) :
  inputs <> [] ->
  fold_left modalStep inputs m
  = match last inputs ClickClose with
    | ClickRow event => openEventDetails event m
    | ClickClose => closeModal m
    end.
Proof.
  revert m; induction inputs as [|i inputs IH]; intros m N; [congruence|].
  destruct inputs as [|j inputs].
  - destruct i; reflexivity.
  - cbn [fold_left]; cbn [fold_left] in IH.
    rewrite (IH (modalStep m i)) by discriminate.
    change (last (i :: j :: inputs) ClickClose)
      with (last (j :: inputs) ClickClose).
    destruct (last (j :: inputs) ClickClose); reflexivity.
Qed.

(** X21. After any sequence of clicks on rows and on the close button,
    starting with the dialog closed, the dialog shows the event of the last
    click when that was a click on a row and is hidden otherwise; in
    particular [showModal] is on exactly when an event is selected. *)
Theorem dialog_shows_last_clicked (inputs : list ModalInput) :
  let m := fold_left modalStep inputs noModal in
  modalShown m = lastClicked inputs
  /\ selectedEvent m = lastClicked inputs
  /\ (showModal m = true <-> selectedEvent m <> None).
Proof.
  intros m; subst m; unfold lastClicked.
  destruct inputs as [|i inputs].
  - simpl; repeat split; [discriminate | congruence].
  - rewrite modal_after by discriminate.
    destruct (last (i :: inputs) ClickClose); simpl; repeat split;
      try discriminate; congruence.
Qed.

(** X22. The details dialog and the table row of an event agree: same title
    and same type text, the location and the description are shown in the
    dialog exactly when the row shows them, and with the same text. The time
    line of the dialog is there exactly when the start carries a date-time,
    and an event whose start has neither a date-time nor a date shows No
    date in the dialog and N/A in the row. *)
Theorem dialog_agrees_with_row (format : str -> str -> str) (e : Event) :
  let d := details format e in
  let r := screenRow format e in
  detailTitle d = cellTitle r
  /\ detailType d = cellType r
  /\ detailDescription d = cellDescription r
  /\ detailLocation d
     = (if locationPin r then Some (cellLocation r) else None)
  /\ (detailTimes d = None <-> noValue (chain (start e) dateTime))
  /\ (noValue (chain (start e) dateTime) ->
      noValue (chain (start e) date) ->
      detailDate d = lit "No date" /\ cellStart r = lit "N/A")
  /\ (forall t, chain (start e) dateTime = Some t -> t <> [] ->
      noValue (chain (end_ e) dateTime) ->
      detailTimes d = Some (format t (lit "p"), lit "No end time")).
Proof.
  intros d r; subst d r; unfold details, screenRow;
    cbn [detailTitle detailType detailDescription detailLocation detailTimes
         detailDate cellTitle cellType cellDescription cellLocation
         locationPin cellStart].
  split; [reflexivity|]; split; [reflexivity|]; split; [reflexivity|].
  split; [destruct (location e) as [[|c s]|]; reflexivity|].
  split.
  { unfold noValue; destruct (chain (start e) dateTime) as [[|c s]|]; simpl;
      split; try discriminate; auto; intros [H | H]; discriminate. }
  split.
  { intros [-> | ->] [-> | ->]; split; reflexivity. }
  intros t -> Ht [-> | ->]; (destruct t; [congruence | reflexivity]).
Qed.

End ModalFacts.

(** ** More concrete runs *)

Module MoreRuns.

Example print_with_dates :
  exists html,
    exportToPDF Samples.sampleFormat (Some tt) [Samples.birthday]
      (lit "2024-01-01") (lit "2024-01-31")
    = Printed html.
Proof. eexists; reflexivity. Qed.

Example print_with_cleared_start :
  exportToPDF Samples.sampleFormat (Some tt) [Samples.birthday] []
    (lit "2024-01-31")
  = HeadingFailed.
Proof. reflexivity. Qed.

Example print_with_blocked_popup :
  exportToPDF Samples.sampleFormat None [Samples.birthday]
    (lit "2024-01-01") (lit "2024-01-31")
  = PopupBlocked.
Proof. reflexivity. Qed.

Example same_date_is_no_edit :
  Calendar.step
    (Calendar.step (Calendar.mounted (lit "2024-01-01") (lit "2024-01-31"))
       (Calendar.FetchSettled (Fetcher.Returned [Samples.standup])))
    (Calendar.EditStartDate (lit "2024-01-01"))
  = Calendar.step (Calendar.mounted (lit "2024-01-01") (lit "2024-01-31"))
      (Calendar.FetchSettled (Fetcher.Returned [Samples.standup])).
Proof. reflexivity. Qed.

End MoreRuns.
